(** * AST-Safe Rename Tool: a shallow embedding of [main.py]

    The development follows the layout of the Python source:

    - the syntax trees of the [ast] module, as far as the two visitors of the
      tool can observe them;
    - [find_identifiers] (the [IdentifierFinder] visitor) and
      [create_renamer] / [apply_rename_to_tree] (the [Renamer] transformer);
    - [generate_diff], on top of [str.splitlines] and [difflib.unified_diff];
    - the file system operations [write_file_atomic], [backup_file],
      [record_manifest] and [restore_backups];
    - the per-file pipeline [safe_process_file], [summarize_stats], the
      validation of [parse_args] and the orchestrator [main].

    Python's standard library ([ast.parse], [ast.unparse], [difflib], [json],
    [tempfile], [argparse]) is not part of the tool; it enters as explicit
    collaborators, and so do the errors that the operating system can answer
    to a write, a rename, a copy or a removal. *)

From Stdlib Require Import Ascii.
From stdpp Require Import gmap strings list fin_maps pretty.

(** ** Syntax trees *)

Module Ast.

(** [lineno] and [col_offset], the two position attributes the finder reads. *)
Record pos : Type := Pos { lineno : Z; col_offset : Z }.

(** [ast.expr_context]: a field-less node, reached by [generic_visit] but
    without children or identifier of its own. *)
Inductive expr_context : Type := Load | Store | Del.

(** Values of fields that are not [ast.AST] instances. *)
Inductive raw : Type :=
| RNone
| RStr (s : string)
| RInt (z : Z)
| RBool (b : bool).

(** A node is one of the six classes for which the tool defines a [visit_*]
    method, a [Constant] (a literal), or a node of any other class, which the
    visitors traverse field by field with [generic_visit].  For the classes
    with an identifier field, that field comes first in [_fields]; the
    remaining fields are kept, in [_fields] order, in [rest]. *)
#[local] Unset Elimination Schemes.
Inductive node : Type :=
| Name (p : pos) (id : string) (ctx : expr_context)
| FunctionDef (p : pos) (name : string) (rest : list field)
| AsyncFunctionDef (p : pos) (name : string) (rest : list field)
| ClassDef (p : pos) (name : string) (rest : list field)
| Attribute (p : pos) (value : node) (attr : string) (ctx : expr_context)
| arg (p : pos) (arg_ : string) (annotation : option node)
      (type_comment : option string)
| Constant (p : pos) (value : raw) (kind : option string)
| Other (cls : string) (p : option pos) (fields : list field)
with field : Type :=
| FNode (n : node)
| FList (items : list field)
| FRaw (r : raw).
#[local] Set Elimination Schemes.

(** Structural induction through the nested lists. *)
Section Induction.
Variables (P : node → Prop) (Q : field → Prop).
Hypothesis HName : ∀ p id ctx, P (Name p id ctx).
Hypothesis HFunctionDef : ∀ p name rest,
    Forall Q rest → P (FunctionDef p name rest).
Hypothesis HAsyncFunctionDef : ∀ p name rest,
    Forall Q rest → P (AsyncFunctionDef p name rest).
Hypothesis HClassDef : ∀ p name rest,
    Forall Q rest → P (ClassDef p name rest).
Hypothesis HAttribute : ∀ p value attr ctx,
    P value → P (Attribute p value attr ctx).
Hypothesis Harg_none : ∀ p a tc, P (arg p a None tc).
Hypothesis Harg_some : ∀ p a ann tc, P ann → P (arg p a (Some ann) tc).
Hypothesis HConstant : ∀ p v k, P (Constant p v k).
Hypothesis HOther : ∀ cls p fields, Forall Q fields → P (Other cls p fields).
Hypothesis HFNode : ∀ n, P n → Q (FNode n).
Hypothesis HFList : ∀ items, Forall Q items → Q (FList items).
Hypothesis HFRaw : ∀ r, Q (FRaw r).

Fixpoint node_field_ind (n : node) : P n :=
    let all :=
      fix all (fs : list field) : Forall Q fs :=
        match fs with
        | [] => List.Forall_nil Q
        | f :: fs' => @List.Forall_cons _ Q f fs' (field_node_ind f) (all fs')
        end in
    match n with
    | Name p id ctx => HName p id ctx
    | FunctionDef p name rest => HFunctionDef p name rest (all rest)
    | AsyncFunctionDef p name rest => HAsyncFunctionDef p name rest (all rest)
    | ClassDef p name rest => HClassDef p name rest (all rest)
    | Attribute p value attr ctx =>
        HAttribute p value attr ctx (node_field_ind value)
    | arg p a None tc => Harg_none p a tc
    | arg p a (Some ann) tc => Harg_some p a ann tc (node_field_ind ann)
    | Constant p v k => HConstant p v k
    | Other cls p fields => HOther cls p fields (all fields)
    end
  with field_node_ind (f : field) : Q f :=
    match f with
    | FNode n => HFNode n (node_field_ind n)
    | FList items =>
        HFList items
          ((fix all (fs : list field) : Forall Q fs :=
              match fs with
              | [] => List.Forall_nil Q
              | f :: fs' => @List.Forall_cons _ Q f fs' (field_node_ind f) (all fs')
              end) items)
    | FRaw r => HFRaw r
    end.

End Induction.

End Ast.

Import Ast.

(** ** The Occurrence Locator: [find_identifiers] *)

(** One entry of [occurrences]: [(node.lineno, node.col_offset, kind)]. *)
Definition occurrence : Type := Z * Z * string.

(** [occurrences.append((node.lineno, node.col_offset, kind))] guarded by the
    comparison of the identifier field with [old_name]. *)
Definition report (old_name : string) (p : pos) (ident kind : string)
    : list occurrence :=
  if decide (ident = old_name) then [(lineno p, col_offset p, kind)] else [].

(** [IdentifierFinder] is an [ast.NodeVisitor]: [visit] dispatches on the
    class of the node to [visit_<class>] when the visitor defines it and to
    [generic_visit] otherwise; [generic_visit] walks the fields in [_fields]
    order, visiting every field that is a node and every node in a field that
    is a list.  Each of the six methods appends its occurrence and then calls
    [generic_visit].  The result is the list appended to, in order. *)
Module IdentifierFinder.
Section Visitor.
Variable old_name : string.

Fixpoint visit (n : node) : list occurrence :=
    match n with
    | Name p id _ => report old_name p id "Name"
    | FunctionDef p name rest =>
        report old_name p name "FunctionDef" ++ flat_map visit_field rest
    | AsyncFunctionDef p name rest =>
        report old_name p name "AsyncFunctionDef" ++ flat_map visit_field rest
    | ClassDef p name rest =>
        report old_name p name "ClassDef" ++ flat_map visit_field rest
    | Attribute p value attr _ =>
        report old_name p attr "Attribute" ++ visit value
    | arg p a annotation _ =>
        report old_name p a "arg" ++
        match annotation with Some ann => visit ann | None => [] end
    | Constant _ _ _ => []
    | Other _ _ fields => flat_map visit_field fields
    end
  with visit_field (f : field) : list occurrence :=
    match f with
    | FNode n => visit n
    | FList items =>
        flat_map (λ item, match item with FNode n => visit n | _ => [] end)
                 items
    | FRaw _ => []
    end.

  (** [generic_visit] on the fields of a node. *)
Definition generic_visit (fields : list field) : list occurrence :=
    flat_map visit_field fields.
End Visitor.
End IdentifierFinder.

Definition find_identifiers (tree : node) (old_name : string)
    : list occurrence :=
  IdentifierFinder.visit old_name tree.

(** ** The Rewriter: [create_renamer] and [apply_rename_to_tree] *)

(** [if field == old_name: field = new_name]. *)
Definition rename_ident (old_name new_name ident : string) : string :=
  if decide (ident = old_name) then new_name else ident.

(** [Renamer] is an [ast.NodeTransformer].  Every method returns the node it
    was given, so the [generic_visit] of the transformer stores each visited
    child back where it was: on lists it is a map over the items that are
    nodes.  [visit_FunctionDef], [visit_AsyncFunctionDef], [visit_ClassDef] and
    [visit_Attribute] call [generic_visit]; [visit_Name] and [visit_arg]
    return the node without calling it.  The Python code updates the tree in
    place; the tree is not read again by its caller, so the embedding returns
    the updated tree. *)
Module Renamer.
Section Transformer.
Variables old_name new_name : string.

Fixpoint visit (n : node) : node :=
    match n with
    | Name p id ctx => Name p (rename_ident old_name new_name id) ctx
    | FunctionDef p name rest =>
        FunctionDef p (rename_ident old_name new_name name)
                    (map visit_field rest)
    | AsyncFunctionDef p name rest =>
        AsyncFunctionDef p (rename_ident old_name new_name name)
                         (map visit_field rest)
    | ClassDef p name rest =>
        ClassDef p (rename_ident old_name new_name name)
                 (map visit_field rest)
    | Attribute p value attr ctx =>
        Attribute p (visit value) (rename_ident old_name new_name attr) ctx
    | arg p a annotation tc =>
        arg p (rename_ident old_name new_name a) annotation tc
    | Constant p v k => Constant p v k
    | Other cls p fields => Other cls p (map visit_field fields)
    end
  with visit_field (f : field) : field :=
    match f with
    | FNode n => FNode (visit n)
    | FList items =>
        FList (map (λ item, match item with
                            | FNode n => FNode (visit n)
                            | _ => item
                            end) items)
    | FRaw r => FRaw r
    end.
End Transformer.
End Renamer.

Definition create_renamer (old_name new_name : string) : node → node :=
  Renamer.visit old_name new_name.

Definition apply_rename_to_tree (tree : node) (renamer : node → node) : node :=
  renamer tree.

(** ** Text *)

(** A [string] is read as a sequence of code points below 256; the two line
    boundaries U+2028 and U+2029 of [str.splitlines] lie outside of it. *)
Definition is_line_boundary (c : ascii) : bool :=
  bool_decide (N_of_ascii c ∈ [10; 11; 12; 13; 28; 29; 30; 133]%N).

Definition CR : ascii := "013"%char.
Definition LF : ascii := "010"%char.

(** [str.splitlines(keepends=True)], with the line read so far in [line]:
    a line ends after a boundary character, ["\r\n"] counting as one
    boundary; text after the last boundary is a line of its own when it is
    not empty. *)
Fixpoint splitlines_from (line s : string) : list string :=
  match s with
  | EmptyString => if decide (line = "") then [] else [line]
  | String c rest =>
      if decide (c = CR) then
        match rest with
        | String c' rest' =>
            if decide (c' = LF)
            then (line +:+ String CR (String LF "")) :: splitlines_from "" rest'
            else (line +:+ String CR "") :: splitlines_from "" rest
        | EmptyString => (line +:+ String CR "") :: splitlines_from "" rest
        end
      else if is_line_boundary c
      then (line +:+ String c "") :: splitlines_from "" rest
      else splitlines_from (line +:+ String c "") rest
  end.

Definition splitlines (s : string) : list string := splitlines_from "" s.

(** What a file opened in text mode for reading hands over ([newline=None]):
    the line endings ["\r\n"] and ["\r"] arrive as ["\n"]. *)
Fixpoint universal_newlines (s : string) : string :=
  match s with
  | EmptyString => ""
  | String c rest =>
      if decide (c = CR) then
        match rest with
        | String c' rest' =>
            if decide (c' = LF) then String LF (universal_newlines rest')
            else String LF (universal_newlines rest)
        | EmptyString => String LF ""
        end
      else String c (universal_newlines rest)
  end.

(** [''.join(lines)]. *)
Definition join (lines : list string) : string := String.concat "" lines.

(** ** Collaborators from the standard library *)

(** Python exceptions, with the text that [print(f"... {e}")] shows. *)
Inductive exn : Type := Exception (msg : string).

Definition exn_msg (e : exn) : string := match e with Exception m => m end.

Inductive result (A : Type) : Type :=
| Ok (a : A)
| Raise (e : exn).
Arguments Ok {A} a.
Arguments Raise {A} e.

(** The Tree Adapter: [ast.parse(source, filename=filename,
    type_comments=True)], which raises on text outside the grammar, and
    [ast.unparse(tree)]; with them the two lexical tests of the language that
    the tool calls, [str.isidentifier] and [keyword.iskeyword]. *)
Record TreeAdapter : Type := {
  ast_parse : string → string → result node;
  ast_unparse : node → result string;
  str_isidentifier : string → bool;
  keyword_iskeyword : string → bool
}.

(** [difflib.unified_diff(a, b, fromfile, tofile, lineterm='')] as a list of
    output lines.  The generator yields nothing when the matcher finds no
    difference between the two line sequences, and starts with the two
    header lines ['--- ' + fromfile] and ['+++ ' + tofile] otherwise. *)
Record Difflib : Type := {
  unified_diff : list string → list string → string → string → list string;
  unified_diff_same : ∀ a fromfile tofile,
    unified_diff a a fromfile tofile = [];
  unified_diff_differ : ∀ a b fromfile tofile,
    a ≠ b →
    ∃ hunks, unified_diff a b fromfile tofile
             = ("--- " +:+ fromfile) :: ("+++ " +:+ tofile) :: hunks
}.

Definition parse_to_ast (A : TreeAdapter) (source filename : string)
    : result node :=
  ast_parse A source filename.

Definition ast_to_source (A : TreeAdapter) (tree : node) : result string :=
  ast_unparse A tree.

Definition is_valid_identifier (A : TreeAdapter) (name : string) : bool :=
  str_isidentifier A name && negb (keyword_iskeyword A name).

(** ** The Diff Reporter: [generate_diff] *)

Definition generate_diff (D : Difflib) (original modified path : string)
    : string :=
  let orig_lines := splitlines original in
  let mod_lines := splitlines modified in
  let diff := unified_diff D orig_lines mod_lines
                           ("a/" +:+ path) ("b/" +:+ path) in
  join diff.

(** ** Paths ([posixpath]) *)

Definition sep : ascii := "/"%char.

(** [(p[:i], p[i:])] for [i = p.rfind('/') + 1]. *)
Fixpoint rsplit_sep (p : string) : string * string :=
  match p with
  | EmptyString => ("", "")
  | String c r =>
      let '(head, tail) := rsplit_sep r in
      if decide (head = "") then
        if decide (c = sep) then (String c "", tail) else ("", String c tail)
      else (String c head, tail)
  end.

(** [s.rstrip('/')]. *)
Fixpoint rstrip_sep (s : string) : string :=
  match s with
  | EmptyString => ""
  | String c r =>
      let r' := rstrip_sep r in
      if decide (r' = "") then
        if decide (c = sep) then "" else String c ""
      else String c r'
  end.

(** [s == '/' * len(s)]. *)
Fixpoint all_sep (s : string) : bool :=
  match s with
  | EmptyString => true
  | String c r => bool_decide (c = sep) && all_sep r
  end.

Definition os_path_dirname (p : string) : string :=
  let head := fst (rsplit_sep p) in
  if bool_decide (head ≠ "") && negb (all_sep head)
  then rstrip_sep head else head.

Definition os_path_basename (p : string) : string := snd (rsplit_sep p).

Definition startswith_sep (s : string) : bool :=
  match s with String c _ => bool_decide (c = sep) | EmptyString => false end.

Fixpoint endswith_sep (s : string) : bool :=
  match s with
  | EmptyString => false
  | String c EmptyString => bool_decide (c = sep)
  | String _ r => endswith_sep r
  end.

Definition os_path_join (a b : string) : string :=
  if startswith_sep b then b
  else if bool_decide (a = "") || endswith_sep a then a +:+ b
  else a +:+ "/" +:+ b.

(** [s.endswith(suffix)]. *)
Fixpoint endswith (suffix s : string) : bool :=
  bool_decide (s = suffix) ||
  match s with
  | EmptyString => false
  | String _ r => endswith suffix r
  end.

(** ** Python dictionaries

    [changes] and [manifest] are iterated in insertion order, so a dictionary
    is an association list; [d[k] = v] replaces the value of a key already
    present and appends a new key at the end. *)
Definition dict (V : Type) : Type := list (string * V).

Fixpoint dict_set {V} (d : dict V) (k : string) (v : V) : dict V :=
  match d with
  | [] => [(k, v)]
  | (k', v') :: d' =>
      if decide (k' = k) then (k, v) :: d' else (k', v') :: dict_set d' k v
  end.

(** ** The world: files and the record of what the run did *)

Inductive event : Type :=
| Printed (line : string)         (* print(line), or the prompt of input() *)
| Created (path : string)         (* a file that did not exist, made empty *)
| Written (path : string)         (* a file opened for writing and written *)
| Copied (src dst : string)       (* shutil.copy2(src, dst), completed *)
| CopyBroken (src dst : string)   (* a copy that raised after opening dst *)
| Moved (src dst : string)        (* os.rename(src, dst) *)
| Removed (path : string)         (* os.unlink(path) *)
| MadeDir (path : string)         (* the directory made by tempfile.mkdtemp *)
| Usage (message : string).       (* parser.error(message), on standard error *)

(** Files are kept by path, all paths in one canonical spelling; directories
    are not among them, the making of one is an event of the record.
    [trace] lists the effects in the order in which they happened. *)
Record world : Type := World {
  files : gmap string string;
  trace : list event
}.

(** Computations that read and change the world and may raise; what was done
    before an exception stays done. *)
Definition io (A : Type) : Type := world → result A * world.

Definition ret {A} (a : A) : io A := λ w, (Ok a, w).

Definition raise {A} (e : exn) : io A := λ w, (Raise e, w).

Definition bind {A B} (c : io A) (k : A → io B) : io B :=
  λ w, match c w with
       | (Ok a, w') => k a w'
       | (Raise e, w') => (Raise e, w')
       end.

(** [try: c  except Exception as e: h e]. *)
Definition try_except {A} (c : io A) (h : exn → io A) : io A :=
  λ w, match c w with
       | (Ok a, w') => (Ok a, w')
       | (Raise e, w') => h e w'
       end.

Definition lift {A} (r : result A) : io A := λ w, (r, w).

Declare Scope io_scope.
Delimit Scope io_scope with io.
Notation "x <- c ;; k" := (bind c (λ x, k))
  (at level 100, c at next level, right associativity) : io_scope.
Notation "c ;;; k" := (bind c (λ _, k))
  (at level 100, right associativity) : io_scope.
Local Open Scope io_scope.

Definition emit (e : event) : io unit :=
  λ w, (Ok tt, World (files w) (trace w ++ [e])).

Definition print (line : string) : io unit := emit (Printed line).

(** [for x in xs: body x], left at the first exception. *)
Fixpoint for_each {A} (xs : list A) (body : A → io unit) : io unit :=
  match xs with
  | [] => ret tt
  | x :: xs' => body x ;;; for_each xs' body
  end.

Definition os_path_exists (p : string) : io bool :=
  λ w, (Ok (bool_decide (is_Some (files w !! p))), w).

Definition FileNotFoundError (p : string) : exn :=
  Exception ("[Errno 2] No such file or directory: '" +:+ p +:+ "'").

Definition SameFileError (src dst : string) : exn :=
  Exception ("'" +:+ src +:+ "' and '" +:+ dst +:+ "' are the same file").

(** ** The environment of a run *)

(** Where, if anywhere, the three steps of an atomic write meet an error of
    the operating system. *)
Inductive fault : Type :=
| NoFault
| CreateFails (e : exn)                 (* the temporary file cannot be made *)
| WriteFails (written : string) (e : exn)  (* after [written] reached it *)
| RenameFails (e : exn).                (* os.rename raises this OSError *)

(** What the run reads from outside the files: the directory walk, the
    directory made by [tempfile.mkdtemp] (or the error it meets), the
    candidate names drawn by [tempfile], the errors met while writing, by
    target path, the errors met by copies and removals, and the operator's
    answer to [confirm].

    [copy_fault src dst] is the error that [shutil.copy2(src, dst)] meets on
    an existing [src], if any: the two paths name the same file (a hard or
    symbolic link), a permission is missing, the disk is full.  With it comes
    what the copy leaves at [dst]: nothing when it raises before [dst] is
    opened for writing, else the content that had reached [dst].
    [dump_fault path] is, in the same way, the error met while the manifest
    is written to [path]. *)
Record Env : Type := {
  os_walk : string → list (string * list string);
  mkdtemp : string → result string;
  tmp_names : list string;
  write_fault : string → fault;
  copy_fault : string → string → option (option string * exn);
  unlink_fault : string → option exn;
  dump_fault : string → option (option string * exn);
  operator_confirms : bool
}.

(** The JSON codec of the manifest: [json.dump(entries, f, indent=2)] and
    [json.load(f)]. *)
Record Json : Type := {
  json_dump : dict string → string;
  json_load : string → result (dict string)
}.

(** ** Operations on files *)

(** [open(path, 'r', encoding='utf-8').read()]: the content of the file with
    its line endings translated. *)
Definition read_text (path : string) : io string :=
  λ w, match files w !! path with
       | Some text => (Ok (universal_newlines text), w)
       | None => (Raise (FileNotFoundError path), w)
       end.

(** [with open(path, 'w', encoding='utf-8') as f: f.write(text)], where the
    line separator is ["\n"]. *)
Definition write_text (path text : string) : io unit :=
  λ w, (Ok tt, World (<[path := text]> (files w)) (trace w ++ [Written path])).

(** [os.open(path, O_CREAT | O_EXCL ...)] on a path that is free. *)
Definition create_file (path : string) : io unit :=
  λ w, (Ok tt, World (<[path := ""]> (files w)) (trace w ++ [Created path])).

(** [shutil.copy2(src, dst)]: raises when [src] is missing, when [src] and
    [dst] are the same file, and on any other error that the copy meets;
    otherwise [dst] receives the content of [src]. *)
Definition shutil_copy2 (E : Env) (src dst : string) : io unit :=
  λ w, match files w !! src with
       | None => (Raise (FileNotFoundError src), w)
       | Some bytes =>
           if decide (src = dst) then (Raise (SameFileError src dst), w)
           else
             match copy_fault E src dst with
             | None =>
                 (Ok tt, World (<[dst := bytes]> (files w))
                               (trace w ++ [Copied src dst]))
             | Some (None, e) => (Raise e, w)
             | Some (Some reached, e) =>
                 (Raise e, World (<[dst := reached]> (files w))
                                 (trace w ++ [CopyBroken src dst]))
             end
       end.

(** The error with which [shutil.copy2(src, dst)] ends on an existing [src],
    if it raises. *)
Definition copy_error (E : Env) (src dst : string) : option exn :=
  if decide (src = dst) then Some (SameFileError src dst)
  else snd <$> copy_fault E src dst.

(** [os.rename(src, dst)] of a regular file onto a file path; [refused] is
    the [OSError] with which the operating system refuses it, if it does. *)
Definition os_rename (refused : option exn) (src dst : string) : io unit :=
  λ w, match refused with
       | Some e => (Raise e, w)
       | None =>
           match files w !! src with
           | None => (Raise (FileNotFoundError src), w)
           | Some bytes =>
               (Ok tt, World (<[dst := bytes]> (delete src (files w)))
                             (trace w ++ [Moved src dst]))
           end
       end.

(** [os.unlink(path)]. *)
Definition os_unlink (E : Env) (path : string) : io unit :=
  λ w, match files w !! path with
       | None => (Raise (FileNotFoundError path), w)
       | Some _ =>
           match unlink_fault E path with
           | Some e => (Raise e, w)
           | None => (Ok tt, World (delete path (files w))
                                   (trace w ++ [Removed path]))
           end
       end.

(** [shutil.move(src, dst)] of a regular file onto a file path: it tries
    [os.rename(src, dst)], and when that raises an [OSError] it copies
    instead, [copy2(src, dst)] followed by [os.unlink(src)]. *)
Definition shutil_move (E : Env) (refused : option exn) (src dst : string)
    : io unit :=
  try_except (os_rename refused src dst)
    (λ _, shutil_copy2 E src dst ;;; os_unlink E src).

(** ** The Atomic Writer: [write_file_atomic] *)

(** The name search of [tempfile]: the first candidate [dir/tmp<name>] that
    does not exist is created, empty; without one, [FileExistsError]. *)
Fixpoint mkstemp_inner (dir : string) (names : list string) : io string :=
  match names with
  | [] => raise (Exception "[Errno 17] No usable temporary file name found")
  | name :: names' =>
      let file := os_path_join dir ("tmp" +:+ name) in
      taken <- os_path_exists file ;;
      if (taken : bool) then mkstemp_inner dir names'
      else (create_file file ;;; ret file)
  end.

(** [tempfile.NamedTemporaryFile(mode='w', encoding='utf-8', dir=dir,
    delete=False)], entered. *)
Definition NamedTemporaryFile (E : Env) (flt : fault) (dir : string)
    : io string :=
  match flt with
  | CreateFails e => raise e
  | _ => mkstemp_inner dir (tmp_names E)
  end.

(** [tmp.write(content)] and the close at the end of the [with] block. *)
Definition tmp_write (flt : fault) (tmp_path content : string) : io unit :=
  match flt with
  | WriteFails written e => write_text tmp_path written ;;; raise e
  | _ => write_text tmp_path content
  end.

(** The error, if any, with which [os.rename] refuses the last step. *)
Definition rename_error (flt : fault) : option exn :=
  match flt with
  | RenameFails e => Some e
  | _ => None
  end.

Definition write_file_atomic (E : Env) (path content : string) : io unit :=
  let flt := write_fault E path in
  let dir_path :=
    if decide (os_path_dirname path = "") then "." else os_path_dirname path in
  tmp_path <- NamedTemporaryFile E flt dir_path ;;
  tmp_write flt tmp_path content ;;;
  shutil_move E (rename_error flt) tmp_path path.

(** ** The Backup and Manifest Subsystem *)

(** The [while os.path.exists(backup_path)] loop of [backup_file], entered
    with the current [backup_path] and [counter].  [fuel] bounds the number of
    iterations; [None] stands for a loop that has not ended within it. *)
Fixpoint backup_probe (fuel : nat) (fs : gmap string string)
    (backup_dir base backup_path : string) (counter : nat) : option string :=
  if bool_decide (is_Some (fs !! backup_path)) then
    match fuel with
    | O => None
    | S fuel' =>
        backup_probe fuel' fs backup_dir base
          (os_path_join backup_dir (base +:+ ".bak." +:+ pretty counter))
          (counter + 1)
    end
  else Some backup_path.

(** [backup_file] returns the manifest it has updated.  The loop runs with
    one iteration per existing file at its disposal, which is more than it
    can use. *)
Definition backup_file (E : Env) (path backup_dir : string)
    (manifest : dict string) : io (dict string) :=
  λ w,
    let base := os_path_basename path in
    match backup_probe (size (files w)) (files w) backup_dir base
            (os_path_join backup_dir (base +:+ ".bak")) 1 with
    | None => (Raise (Exception "backup_file: probe loop did not end"), w)
    | Some backup_path =>
        (shutil_copy2 E path backup_path ;;;
         ret (dict_set manifest path backup_path)) w
    end.

(** [d[k]], when the key is present. *)
Fixpoint dict_get {V} (d : dict V) (k : string) : option V :=
  match d with
  | [] => None
  | (k', v) :: d' => if decide (k' = k) then Some v else dict_get d' k
  end.

(** The names in the order in which the loop of [backup_file] tries them:
    [base.bak], [base.bak.1], [base.bak.2], ... under [backup_dir]. *)
Definition backup_candidate (backup_dir base : string) (k : nat) : string :=
  os_path_join backup_dir
    (base +:+ match k with O => ".bak" | S _ => ".bak." +:+ pretty k end).

Definition record_manifest (E : Env) (J : Json) (manifest_path : string)
    (entries : dict string) : io unit :=
  match dump_fault E manifest_path with
  | None => write_text manifest_path (json_dump J entries)
  | Some (None, e) => raise e
  | Some (Some written, e) => write_text manifest_path written ;;; raise e
  end.

Definition restore_entry (E : Env) (entry : string * string) : io unit :=
  let '(original, backup) := entry in
  present <- os_path_exists backup ;;
  if (present : bool) then
    shutil_copy2 E backup original ;;;
    print ("Restored: " +:+ original)
  else print ("Backup not found: " +:+ backup).

Definition restore_backups (E : Env) (J : Json) (manifest_path : string)
    : io unit :=
  present <- os_path_exists manifest_path ;;
  if (present : bool) then
    text <- read_text manifest_path ;;
    manifest <- lift (json_load J text) ;;
    for_each manifest (restore_entry E)
  else print ("No manifest found at " +:+ manifest_path).

(** ** The File Pipeline: [safe_process_file] *)

Definition safe_process_file (A : TreeAdapter)
    (path old new backup_dir : string) : io (string * string * bool) :=
  try_except
    (original <- read_text path ;;
     tree <- lift (parse_to_ast A original path) ;;
     let occurrences := find_identifiers tree old in
     if decide (occurrences = []) then ret (original, original, false)
     else
       let renamer := create_renamer old new in
       let modified_tree := apply_rename_to_tree tree renamer in
       modified <- lift (ast_to_source A modified_tree) ;;
       ret (original, modified, true))
    (λ e,
       print ("Error processing " +:+ path +:+ ": " +:+ exn_msg e) ;;;
       ret ("", "", false)).

(** ** Statistics and preview *)

Record Stats : Type := {
  files_scanned : nat;
  files_modified : nat;
  files_unchanged : nat
}.

Definition summarize_stats (changes : dict (string * string)) : Stats :=
  let files_modified :=
    length (filter (λ kv, fst (snd kv) ≠ snd (snd kv)) changes) in
  {| files_scanned := length changes;
     files_modified := files_modified;
     files_unchanged := length changes - files_modified |}.

Definition nl : string := String LF "".

(** ['=' * 60]. *)
Definition rule : string := String.concat "" (replicate 60 "=").

Definition preview_changes (D : Difflib) (changes : dict (string * string))
    : io unit :=
  for_each changes (λ kv,
    let '(path, (original, modified)) := kv in
    if decide (original ≠ modified) then
      print (nl +:+ rule) ;;;
      print ("File: " +:+ path) ;;;
      print rule ;;;
      let diff := generate_diff D original modified path in
      print (if decide (diff = "") then "No changes" else diff)
    else ret tt).

(** ** The Orchestrator *)

Definition collect_py_files (E : Env) (root : string) : list string :=
  flat_map (λ entry,
      let '(dirpath, filenames) := entry in
      map (os_path_join dirpath) (List.filter (endswith ".py") filenames))
    (os_walk E root).

(** [confirm(prompt)]: the prompt is shown and the operator answers. *)
Definition confirm (E : Env) (prompt : string) : io bool :=
  emit (Printed (prompt +:+ " (y/n): ")) ;;; ret (operator_confirms E).

(** The namespace that [parser.parse_args()] builds from a command line that
    [argparse] accepts.  An option [--old] or [--new] that is not given is
    [None]; the tool tests it for truth only, as it would the empty string,
    which stands for it here. *)
Record Args : Type := {
  args_old : string;
  args_new : string;
  args_path : string;
  args_preview : bool;
  args_apply : bool;
  args_undo : bool;
  args_manifest : string
}.

(** How [parse_args] ends: it returns the namespace, or it calls
    [parser.error(message)], which writes the usage and the message to
    standard error and leaves the process with exit code 2. *)
Inductive parsed : Type :=
| Parsed (args : Args)
| UsageError (message : string).

(** The validation of [parse_args], on the namespace [args]. *)
Definition parse_args (A : TreeAdapter) (args : Args) : parsed :=
  if args_undo args then Parsed args
  else if bool_decide (args_old args = "") || bool_decide (args_new args = "")
  then UsageError "--old and --new are required unless using --undo"
  else if decide (args_old args = args_new args)
  then UsageError "--old and --new must be different"
  else if negb (is_valid_identifier A (args_old args))
  then UsageError ("Invalid identifier: " +:+ args_old args)
  else if negb (is_valid_identifier A (args_new args))
  then UsageError ("Invalid identifier: " +:+ args_new args)
  else Parsed args.

(** [tempfile.mkdtemp(prefix=prefix)]: the directory is made, and named. *)
Definition tempfile_mkdtemp (E : Env) (prefix : string) : io string :=
  match mkdtemp E prefix with
  | Ok dir => emit (MadeDir dir) ;;; ret dir
  | Raise e => raise e
  end.

(** One iteration of the scanning loop of [main], on the two dictionaries
    [changes] and [manifest]. *)
Definition scan_file (A : TreeAdapter) (E : Env) (args : Args)
    (backup_dir : string)
    (st : dict (string * string) * dict string) (path : string)
    : io (dict (string * string) * dict string) :=
  let '(changes, manifest) := st in
  r <- safe_process_file A path (args_old args) (args_new args) backup_dir ;;
  let '(original, modified, has_changes) := r in
  if decide (original ≠ "") then
    let changes := dict_set changes path (original, modified) in
    if has_changes && args_apply args then
      manifest <- backup_file E path backup_dir manifest ;;
      ret (changes, manifest)
    else ret (changes, manifest)
  else ret (changes, manifest).

Fixpoint scan_files (A : TreeAdapter) (E : Env) (args : Args)
    (backup_dir : string) (py_files : list string)
    (st : dict (string * string) * dict string)
    : io (dict (string * string) * dict string) :=
  match py_files with
  | [] => ret st
  | path :: rest =>
      st' <- scan_file A E args backup_dir st path ;;
      scan_files A E args backup_dir rest st'
  end.

(** The writing loop of [main]. *)
Definition apply_changes (E : Env) (changes : dict (string * string))
    : io unit :=
  for_each changes (λ kv,
    let '(path, (original, modified)) := kv in
    if decide (original ≠ modified) then
      write_file_atomic E path modified ;;;
      print ("Modified: " +:+ path)
    else ret tt).

Definition print_summary (stats : Stats) : io unit :=
  print (nl +:+ rule) ;;;
  print ("Summary: " +:+ pretty (files_modified stats) +:+
         " files to modify, " +:+ pretty (files_unchanged stats) +:+
         " unchanged") ;;;
  print rule.

(** [main] after [args = parse_args()] has returned the namespace. *)
Definition main_with (A : TreeAdapter) (D : Difflib) (J : Json) (E : Env)
    (args : Args) : io Z :=
  if args_undo args then
    restore_backups E J (args_manifest args) ;;; ret 0%Z
  else
    print ("Scanning Python files in: " +:+ args_path args) ;;;
    let py_files := collect_py_files E (args_path args) in
    print ("Found " +:+ pretty (length py_files) +:+ " Python files") ;;;
    if decide (py_files = []) then
      print "No Python files found" ;;; ret 0%Z
    else
      backup_dir <- tempfile_mkdtemp E "ast_rename_backup_" ;;
      st <- scan_files A E args backup_dir py_files ([], []) ;;
      let '(changes, manifest) := st in
      (if args_preview args || negb (args_apply args) then
         preview_changes D changes ;;;
         print_summary (summarize_stats changes)
       else ret tt) ;;;
      if negb (args_apply args) then
        print (nl +:+ "Use --apply to write changes") ;;; ret 0%Z
      else
        yes <- confirm E "Apply changes to files?" ;;
        if negb yes then print "Aborted" ;;; ret 1%Z
        else
          apply_changes E changes ;;;
          (if decide (manifest ≠ []) then
             record_manifest E J (args_manifest args) manifest ;;;
             print (nl +:+ "Backup manifest saved: " +:+ args_manifest args) ;;;
             print "Use --undo to restore original files"
           else ret tt) ;;;
          let stats := summarize_stats changes in
          print (nl +:+ "Completed: " +:+ pretty (files_modified stats) +:+
                 " files modified") ;;;
          ret 0%Z.

(** [main()], on the namespace of the command line.  Its value is the code
    with which the process ends once [main] is left: the code that [main]
    returns, which the block at the end of the file passes to [exit], or the
    code 2 of the [SystemExit] that [parser.error] raises inside
    [parse_args], which is no [Exception] and passes both handlers of that
    block. *)
Definition main (A : TreeAdapter) (D : Difflib) (J : Json) (E : Env)
    (args : Args) : io Z :=
  match parse_args A args with
  | UsageError message => emit (Usage message) ;;; ret 2%Z
  | Parsed args => main_with A D J E args
  end.

(** The [if __name__ == '__main__'] block: the exit code of the process. *)
Definition run (A : TreeAdapter) (D : Difflib) (J : Json) (E : Env)
    (args : Args) : io Z :=
  try_except (main A D J E args)
    (λ e, print ("Fatal error: " +:+ exn_msg e) ;;; ret 1%Z).

Definition exit_with_code (success : bool) : Z := if success then 0%Z else 1%Z.

(** ** Observations on trees, used to state what the Rewriter preserves *)

(** The identifier-bearing fields of the nodes of the six recognised classes,
    in the order in which the finder meets them. *)
Fixpoint identifiers (n : node) : list string :=
  match n with
  | Name _ id _ => [id]
  | FunctionDef _ name rest => name :: flat_map identifiers_field rest
  | AsyncFunctionDef _ name rest => name :: flat_map identifiers_field rest
  | ClassDef _ name rest => name :: flat_map identifiers_field rest
  | Attribute _ value attr _ => attr :: identifiers value
  | arg _ a annotation _ =>
      a :: match annotation with Some ann => identifiers ann | None => [] end
  | Constant _ _ _ => []
  | Other _ _ fields => flat_map identifiers_field fields
  end
with identifiers_field (f : field) : list string :=
  match f with
  | FNode n => identifiers n
  | FList items =>
      flat_map (λ item, match item with FNode n => identifiers n | _ => [] end)
               items
  | FRaw _ => []
  end.



(** ** Fixtures: a small Tree Adapter, diff, JSON codec and environment

    The examples run the tool on a handful of one-statement files.  On these
    the fixture adapter answers as [ast.parse] and [ast.unparse] do; any other
    text is refused, any other tree is not printed. *)
Module Fixture.

Definition module_ (body : list node) : node :=
  Other "Module" None [FList (map FNode body); FList []].

(** [ast.parse("<target> = 1")]. *)
Definition assign_one (target : string) : node :=
  module_ [Other "Assign" (Some (Pos 1 0))
             [FList [FNode (Name (Pos 1 0) target Store)];
              FNode (Constant (Pos 1 4) (RInt 1) None);
              FRaw RNone]].

(** [ast.parse("def f(a: x):\n    pass")]. *)
Definition annotated_def : node :=
  module_ [FunctionDef (Pos 1 0) "f"
             [FNode (Other "arguments" None
                [FList [];
                 FList [FNode (arg (Pos 1 6) "a"
                                   (Some (Name (Pos 1 9) "x" Load)) None)];
                 FRaw RNone; FList []; FList []; FRaw RNone; FList []]);
              FList [FNode (Other "Pass" (Some (Pos 2 4)) [])];
              FList []; FRaw RNone; FRaw RNone; FList []]].

(** [ast.parse('msg = "x should not change inside this string"')], a line of
    the test file [test1.py]. *)
Definition assign_msg : node :=
  module_ [Other "Assign" (Some (Pos 1 0))
             [FList [FNode (Name (Pos 1 0) "msg" Store)];
              FNode (Constant (Pos 1 6)
                       (RStr "x should not change inside this string") None);
              FRaw RNone]].

Definition dq : string := String (ascii_of_nat 34) "".

Definition assign_msg_src : string :=
  "msg = " +:+ dq +:+ "x should not change inside this string" +:+ dq.
Definition assign_x_src : string := "x = 1" +:+ nl.
Definition annotated_def_src : string := "def f(a: x):" +:+ nl +:+ "    pass".
Definition broken_src : string := "def (".
Definition commented_src : string := "x = 1  # x stays here" +:+ nl.

Definition parse (source filename : string) : result node :=
  if decide (source = "") then Ok (module_ [])
  else if decide (source = assign_x_src) then Ok (assign_one "x")
  else if decide (source = commented_src) then Ok (assign_one "x")
  else if decide (source = "z = 1") then Ok (assign_one "z")
  else if decide (source = "z = 1" +:+ nl) then Ok (assign_one "z")
  else if decide (source = annotated_def_src) then Ok annotated_def
  else if decide (source = assign_msg_src) then Ok assign_msg
  else Raise (Exception ("invalid syntax (" +:+ os_path_basename filename
                         +:+ ", line 1)")).

Definition unparse_expr (e : node) : option string :=
  match e with
  | Name _ id _ => Some id
  | Constant _ (RInt z) None => Some (pretty z)
  | _ => None
  end.

Definition unparse_arg (f : field) : option string :=
  match f with
  | FNode (arg _ a None None) => Some a
  | FNode (arg _ a (Some ann) None) =>
      match unparse_expr ann with
      | Some t => Some (a +:+ ": " +:+ t)
      | None => None
      end
  | _ => None
  end.

Definition unparse_simple (f : field) : option string :=
  match f with
  | FNode (Other cls _ []) =>
      if decide (cls = "Pass") then Some "pass" else None
  | FNode (Other cls _ [FList [FNode target]; FNode value; FRaw RNone]) =>
      if decide (cls = "Assign") then
        match unparse_expr target, unparse_expr value with
        | Some t, Some v => Some (t +:+ " = " +:+ v)
        | _, _ => None
        end
      else None
  | _ => None
  end.

Definition unparse_stmt (f : field) : option string :=
  match f with
  | FNode (FunctionDef _ name
             [FNode (Other cls None
                [FList []; FList args; FRaw RNone; FList []; FList [];
                 FRaw RNone; FList []]);
              FList body; FList []; FRaw RNone; FRaw RNone; FList []]) =>
      if decide (cls = "arguments") then
        match mapM unparse_arg args, mapM unparse_simple body with
        | Some args', Some body' =>
            Some ("def " +:+ name +:+ "(" +:+ String.concat ", " args' +:+ "):"
                  +:+ String.concat "" (map (λ l, nl +:+ "    " +:+ l) body'))
        | _, _ => None
        end
      else None
  | _ => unparse_simple f
  end.

(** Modules made of one statement. *)
Definition unparse (tree : node) : result string :=
  match tree with
  | Other cls None [FList [stmt]; FList []] =>
      if decide (cls = "Module") then
        match unparse_stmt stmt with
        | Some text => Ok text
        | None => Raise (Exception "unparse: tree outside the fixtures")
        end
      else Raise (Exception "unparse: tree outside the fixtures")
  | _ => Raise (Exception "unparse: tree outside the fixtures")
  end.

Definition is_letter (c : ascii) : bool :=
  let n := N_of_ascii c in
  ((65 <=? n) && (n <=? 90) || (97 <=? n) && (n <=? 122) || (n =? 95))%N.

Definition is_digit (c : ascii) : bool :=
  let n := N_of_ascii c in ((48 <=? n) && (n <=? 57))%N.

Fixpoint all_chars (ok : ascii → bool) (s : string) : bool :=
  match s with
  | EmptyString => true
  | String c rest => ok c && all_chars ok rest
  end.

(** [str.isidentifier], for text in ASCII. *)
Definition isidentifier (s : string) : bool :=
  match s with
  | EmptyString => false
  | String c rest =>
      is_letter c && all_chars (λ c, is_letter c || is_digit c) rest
  end.

(** [keyword.kwlist]. *)
Definition kwlist : list string :=
  ["False"; "None"; "True"; "and"; "as"; "assert"; "async"; "await"; "break";
   "class"; "continue"; "def"; "del"; "elif"; "else"; "except"; "finally";
   "for"; "from"; "global"; "if"; "import"; "in"; "is"; "lambda"; "nonlocal";
   "not"; "or"; "pass"; "raise"; "return"; "try"; "while"; "with"; "yield"].

Definition iskeyword (s : string) : bool := bool_decide (s ∈ kwlist).

Definition adapter : TreeAdapter :=
  {| ast_parse := parse; ast_unparse := unparse;
     str_isidentifier := isidentifier; keyword_iskeyword := iskeyword |}.

(** A diff that replaces all lines when the two sequences differ. *)
Definition replace_all_diff (a b : list string) (fromfile tofile : string)
    : list string :=
  if decide (a = b) then []
  else ("--- " +:+ fromfile) :: ("+++ " +:+ tofile) ::
       map (String.append "-") a ++ map (String.append "+") b.

Program Definition difflib : Difflib :=
  {| unified_diff := replace_all_diff |}.
Next Obligation.
  intros a fromfile tofile. unfold replace_all_diff.
  destruct (decide (a = a)); congruence.
Qed.
Next Obligation.
  intros a b fromfile tofile Hne. unfold replace_all_diff.
  destruct (decide (a = b)); [congruence | eauto].
Qed.

Definition json_entry (kv : string * string) : string :=
  "  " +:+ dq +:+ fst kv +:+ dq +:+ ": " +:+ dq +:+ snd kv +:+ dq.

(** [json.dumps(entries, indent=2)] for keys and values without characters
    that JSON escapes. *)
Definition dump (entries : dict string) : string :=
  match entries with
  | [] => "{}"
  | _ => "{" +:+ nl +:+ String.concat ("," +:+ nl) (map json_entry entries)
         +:+ nl +:+ "}"
  end.

(** Decoding, for the manifests in [known]. *)
Definition load (known : list (dict string)) (text : string)
    : result (dict string) :=
  match list_find (λ m, dump m = text) known with
  | Some (_, m) => Ok m
  | None => Raise (Exception "Expecting value: line 1 column 1 (char 0)")
  end.

Definition json (known : list (dict string)) : Json :=
  {| json_dump := dump; json_load := load known |}.

(** A directory [root] holding the files [filenames], and an operator who
    answers [confirms]; every write meets [flt], and copies meet what
    [copies] says. *)
Definition faulty_env (filenames : list string) (confirms : bool)
    (flt : fault) (copies : string → string → option (option string * exn))
    : Env :=
  {| os_walk := λ root, [(root, filenames)];
     mkdtemp := λ prefix, Ok ("/tmp/" +:+ prefix +:+ "k3x9w_p1");
     tmp_names := ["qz4m81ab"; "h2v0c7de"];
     write_fault := λ _, flt;
     copy_fault := copies;
     unlink_fault := λ _, None;
     dump_fault := λ _, None;
     operator_confirms := confirms |}.

(** The same with copies that meet no error. *)
Definition failing_env (filenames : list string) (confirms : bool)
    (flt : fault) : Env :=
  faulty_env filenames confirms flt (λ _ _, None).

(** The same where no write meets an error either. *)
Definition env (filenames : list string) (confirms : bool) : Env :=
  failing_env filenames confirms NoFault.

Definition args (old new : string) (preview apply_ : bool) : Args :=
  {| args_old := old; args_new := new; args_path := ".";
     args_preview := preview; args_apply := apply_; args_undo := false;
     args_manifest := ".rename_manifest.json" |}.

Definition undo_args : Args :=
  {| args_old := ""; args_new := ""; args_path := ".";
     args_preview := false; args_apply := false; args_undo := true;
     args_manifest := ".rename_manifest.json" |}.

(** Three manifests: one written by an apply pass on [./t.py] and extended by
    an entry whose backup is gone, one whose first entry names the original
    itself as its backup, and one whose first entry names a backup that is a
    hard link to its original, as [linked] tells. *)
Definition manifest_with_gap : dict string :=
  [("./t.py", "/tmp/b/t.py.bak"); ("./u.py", "/tmp/b/u.py.bak")].

Definition manifest_with_self : dict string :=
  [("a.py", "a.py"); ("b.py", "gone.bak")].

Definition manifest_with_link : dict string :=
  [("a.py", "/tmp/b/a.py.bak"); ("b.py", "gone.bak")].

Definition linked (src dst : string) : option (option string * exn) :=
  if decide (src = "/tmp/b/a.py.bak" ∧ dst = "a.py")
  then Some (None, SameFileError src dst) else None.

(** A world with the given files and nothing done yet. *)
Definition disk (fs : list (string * string)) : world :=
  World (list_to_map fs) [].

End Fixture.


(** What [restore_backups] does with one manifest entry when the copy does
    not raise: the world after it. *)
Definition restore_step (w : world) (entry : string * string) : world :=
  let '(original, backup) := entry in
  match files w !! backup with
  | Some bytes =>
      World (<[original := bytes]> (files w))
            (trace w ++ [Copied backup original;
                         Printed ("Restored: " +:+ original)])
  | None =>
      World (files w) (trace w ++ [Printed ("Backup not found: " +:+ backup)])
  end.

(** No parameter of the tree carries an annotation. *)
Fixpoint unannotated (n : node) : bool :=
  match n with
  | Name _ _ _ => true
  | FunctionDef _ _ rest => forallb unannotated_field rest
  | AsyncFunctionDef _ _ rest => forallb unannotated_field rest
  | ClassDef _ _ rest => forallb unannotated_field rest
  | Attribute _ value _ _ => unannotated value
  | arg _ _ annotation _ =>
      match annotation with Some _ => false | None => true end
  | Constant _ _ _ => true
  | Other _ _ fields => forallb unannotated_field fields
  end
with unannotated_field (f : field) : bool :=
  match f with
  | FNode n => unannotated n
  | FList items =>
      forallb (λ item, match item with FNode n => unannotated n | _ => true end)
              items
  | FRaw _ => true
  end.

(** ** The record of a run, for statements about order *)

(** A computation that, from any world, appends to the record only events
    that satisfy [φ]. *)
Definition adds_only {A} (φ : event → Prop) (c : io A) : Prop :=
  ∀ w, ∃ tr, trace (c w).2 = trace w ++ tr ∧ Forall φ tr.

(** An event that writes over no file, or over a path that satisfies [P]:
    the writes over a file are the moves and the copies, completed or
    broken. *)
Definition overwrites_only (P : string → Prop) (e : event) : Prop :=
  match e with
  | Moved _ dst | Copied _ dst | CopyBroken _ dst => P dst
  | _ => True
  end.

Definition no_overwrite : event → Prop := overwrites_only (λ _, False).

(** An event that is neither a move nor the creation of a file. *)
Definition no_move_no_creation (e : event) : Prop :=
  match e with
  | Moved _ _ | Created _ => False
  | _ => True
  end.

(** [changes] holds, under [path], two texts that differ: the condition under
    which the writing loop overwrites [path]. *)
Definition changed_in (changes : dict (string * string)) (path : string)
    : Prop :=
  ∃ original modified,
    (path, (original, modified)) ∈ changes ∧ original ≠ modified.

(** The record holds a copy of [path] to some other place. *)
Definition backed_up (tr : list event) (path : string) : Prop :=
  ∃ backup_path, Copied path backup_path ∈ tr.

(** In the record, each move onto a path comes after a copy of that path,
    and so does each copy, completed or broken, of a file that the record has
    created (the temporary file of an atomic write, where the move is made by
    copying) onto a path. *)
Definition backup_precedes_write (tr : list event) : Prop :=
  (∀ i tmp_path path,
     tr !! i = Some (Moved tmp_path path) →
     ∃ j backup_path, j < i ∧ tr !! j = Some (Copied path backup_path)) ∧
  (∀ i k tmp_path path,
     k < i → tr !! k = Some (Created tmp_path) →
     tr !! i = Some (Copied tmp_path path) ∨
     tr !! i = Some (CopyBroken tmp_path path) →
     ∃ j backup_path, j < i ∧ tr !! j = Some (Copied path backup_path)).

(** A computation that never raises, changes no file, adds nothing to the
    record but printed lines, and returns a value that satisfies [P]. *)
Definition prints_and_returns {A} (P : A → Prop) (c : io A) : Prop :=
  ∀ w, ∃ a lines,
    c w = (Ok a, World (files w) (trace w ++ map Printed lines)) ∧ P a.

(** A computation whose value, when it returns one, satisfies [P]. *)
Definition returns_only {A} (P : A → Prop) (c : io A) : Prop :=
  ∀ w a w', c w = (Ok a, w') → P a.

(** The lines that [preview_changes] prints for one change record. *)
Definition preview_lines (D : Difflib) (kv : string * (string * string))
    : list string :=
  let '(path, (original, modified)) := kv in
  if decide (original ≠ modified) then
    [nl +:+ rule; "File: " +:+ path; rule;
     generate_diff D original modified path]
  else [].

(** Every file of [w] is in [w'] with the content it had. *)
Definition keeps_files (w w' : world) : Prop :=
  ∀ p v, files w !! p = Some v → files w' !! p = Some v.

(** An event of the scan: a printed line, the making of the backup
    directory, a copy, completed or broken. *)
Definition scan_effect (e : event) : Prop :=
  match e with
  | Printed _ | MadeDir _ | Copied _ _ | CopyBroken _ _ => True
  | _ => False
  end.

(** A computation that, whether it returns or raises, keeps every file as it
    is and adds to the record only events of the scan. *)
Definition spares_files {A} (c : io A) : Prop :=
  ∀ w, keeps_files w (c w).2 ∧
       ∃ tr, trace (c w).2 = trace w ++ tr ∧ Forall scan_effect tr.

(** What [main] does once the backup directory is made and the scan has
    returned [changes] and [manifest]. *)
Definition after_scan (D : Difflib) (J : Json) (E : Env) (args : Args)
    (st : dict (string * string) * dict string) : io Z :=
  let '(changes, manifest) := st in
  (if args_preview args || negb (args_apply args) then
     preview_changes D changes ;;;
     print_summary (summarize_stats changes)
   else ret tt) ;;;
  if negb (args_apply args) then
    print (nl +:+ "Use --apply to write changes") ;;; ret 0%Z
  else
    yes <- confirm E "Apply changes to files?" ;;
    if negb yes then print "Aborted" ;;; ret 1%Z
    else
      apply_changes E changes ;;;
      (if decide (manifest ≠ []) then
         record_manifest E J (args_manifest args) manifest ;;;
         print (nl +:+ "Backup manifest saved: " +:+ args_manifest args) ;;;
         print "Use --undo to restore original files"
       else ret tt) ;;;
      let stats := summarize_stats changes in
      print (nl +:+ "Completed: " +:+ pretty (files_modified stats) +:+
             " files modified") ;;;
      ret 0%Z.

(** * Properties *)

Local Open Scope io_scope.

(** ** Induction on trees and fields together *)

Section MutualInduction.
Variables (P : node → Prop) (Q : field → Prop).
Hypothesis HName : ∀ p id ctx, P (Name p id ctx).
Hypothesis HFunctionDef : ∀ p name rest,
    Forall Q rest → P (FunctionDef p name rest).
Hypothesis HAsyncFunctionDef : ∀ p name rest,
    Forall Q rest → P (AsyncFunctionDef p name rest).
Hypothesis HClassDef : ∀ p name rest,
    Forall Q rest → P (ClassDef p name rest).
Hypothesis HAttribute : ∀ p value attr ctx,
    P value → P (Attribute p value attr ctx).
Hypothesis Harg_none : ∀ p a tc, P (arg p a None tc).
Hypothesis Harg_some : ∀ p a ann tc, P ann → P (arg p a (Some ann) tc).
Hypothesis HConstant : ∀ p v k, P (Constant p v k).
Hypothesis HOther : ∀ cls p fields, Forall Q fields → P (Other cls p fields).
Hypothesis HFNode : ∀ n, P n → Q (FNode n).
Hypothesis HFList : ∀ items, Forall Q items → Q (FList items).
Hypothesis HFRaw : ∀ r, Q (FRaw r).

Lemma node_field_mutind : (∀ n, P n) ∧ (∀ f, Q f).
Proof.
    split; [apply (node_field_ind P Q) | apply (field_node_ind P Q)];
      assumption.
Qed.
End MutualInduction.

(** ** Trees: what the Rewriter changes and what it leaves *)

Section TreeFacts.
Variables old_name new_name : string.

Let rename := Renamer.visit old_name new_name.


Lemma map_ext_Forall_eq {A B} (f g : A → B) (l : list A) :
    Forall (λ x, f x = g x) l → map f l = map g l.
Proof. induction 1; simpl; congruence. Qed.

Lemma flat_map_ext_Forall_eq {A B} (f g : A → list B) (l : list A) :
    Forall (λ x, f x = g x) l → flat_map f l = flat_map g l.
Proof. induction 1; simpl; congruence. Qed.


Lemma flat_map_map_Forall_eq {A B} (f : A → list B) (g : A → A)
      (l : list A) :
    Forall (λ x, f (g x) = f x) l → flat_map f (map g l) = flat_map f l.
Proof. induction 1; simpl; congruence. Qed.





  (** The finder reports nothing exactly when the spelling is no identifier
      field of the tree. *)
Lemma report_nil p ident kind :
    report old_name p ident kind = [] ↔ old_name ≠ ident.
Proof.
    unfold report. destruct (decide (ident = old_name)); split; intros;
      congruence.
Qed.

Lemma flat_map_nil_Forall {A} (f : A → list occurrence)
      (g : A → list string) (l : list A) :
    Forall (λ x, f x = [] ↔ old_name ∉ g x) l →
    flat_map f l = [] ↔ old_name ∉ flat_map g l.
Proof.
    intros Hl. induction Hl as [| x l Hx _ IH]; simpl.
    - split; [intros _; apply not_elem_of_nil | done].
    - rewrite app_nil, not_elem_of_app. tauto.
Qed.

Lemma find_nil_both :
    (∀ n, IdentifierFinder.visit old_name n = [] ↔
          old_name ∉ identifiers n) ∧
    (∀ f, IdentifierFinder.visit_field old_name f = [] ↔
          old_name ∉ identifiers_field f).
Proof.
    set (Q := λ f : field,
           (IdentifierFinder.visit_field old_name f = [] ↔
            old_name ∉ identifiers_field f) ∧
           match f with
           | FNode n => IdentifierFinder.visit old_name n = [] ↔
                        old_name ∉ identifiers n
           | _ => True
           end).
    cut ((∀ n, IdentifierFinder.visit old_name n = [] ↔
               old_name ∉ identifiers n) ∧ (∀ f, Q f)).
    { intros [Hn Hf]. split; [exact Hn | intros f; apply Hf]. }
    assert (Hnil : old_name ∉ @nil string) by apply not_elem_of_nil.
    apply node_field_mutind; subst Q; simpl; intros;
      rewrite ?app_nil, ?not_elem_of_cons, ?report_nil.
    - tauto.
    - rewrite (flat_map_nil_Forall _ identifiers_field); [tauto |].
      eapply Forall_impl; [eassumption | intros f [Hf _]; exact Hf].
    - rewrite (flat_map_nil_Forall _ identifiers_field); [tauto |].
      eapply Forall_impl; [eassumption | intros f [Hf _]; exact Hf].
    - rewrite (flat_map_nil_Forall _ identifiers_field); [tauto |].
      eapply Forall_impl; [eassumption | intros f [Hf _]; exact Hf].
    - tauto.
    - tauto.
    - tauto.
    - tauto.
    - apply flat_map_nil_Forall.
      eapply Forall_impl; [eassumption | intros f [Hf _]; exact Hf].
    - tauto.
    - split; [| exact I]. apply flat_map_nil_Forall.
      eapply Forall_impl; [eassumption |].
      intros [n | items' | r] [_ Hn]; simpl in *; tauto.
    - tauto.
Qed.
End TreeFacts.

(** ** The occurrences reported and the identifier fields of a tree *)

Section FinderCount.
Variable old_name : string.

Lemma length_report (p : pos) (ident kind : string) :
  length (report old_name p ident kind)
  = length (filter (λ i, i = old_name) [ident]).
Proof.
  unfold report. rewrite filter_cons, filter_nil.
  by destruct (decide (ident = old_name)).
Qed.

Lemma length_flat_map_filter {A} (f : A → list occurrence)
    (g : A → list string) (l : list A) :
  Forall (λ x, length (f x)
               = length (filter (λ i, i = old_name) (g x))) l →
  length (flat_map f l)
  = length (filter (λ i, i = old_name) (flat_map g l)).
Proof.
  induction 1 as [| x l Hx _ IH]; simpl; [done |].
  by rewrite filter_app, !length_app, Hx, IH.
Qed.

Lemma find_count_both :
  (∀ n, length (IdentifierFinder.visit old_name n)
        = length (filter (λ i, i = old_name) (identifiers n))) ∧
  (∀ f, length (IdentifierFinder.visit_field old_name f)
        = length (filter (λ i, i = old_name) (identifiers_field f))).
Proof.
  set (Q := λ f : field,
         length (IdentifierFinder.visit_field old_name f)
         = length (filter (λ i, i = old_name) (identifiers_field f)) ∧
         match f with
         | FNode n => length (IdentifierFinder.visit old_name n)
                      = length (filter (λ i, i = old_name) (identifiers n))
         | _ => True
         end).
  cut ((∀ n, length (IdentifierFinder.visit old_name n)
             = length (filter (λ i, i = old_name) (identifiers n))) ∧
       (∀ f, Q f)).
  { intros [Hn Hf]. split; [exact Hn | intros f; apply Hf]. }
  assert (Hcons : ∀ p ident kind (occ : list occurrence) (ids : list string),
            length occ = length (filter (λ i, i = old_name) ids) →
            length (report old_name p ident kind ++ occ)
            = length (filter (λ i, i = old_name) (ident :: ids))).
  { intros p ident kind occ ids Hlen.
    change (ident :: ids) with ([ident] ++ ids).
    by rewrite filter_app, !length_app, length_report, Hlen. }
  apply node_field_mutind; subst Q; simpl; intros.
  - rewrite <- (app_nil_r (report _ _ _ _)). by apply Hcons.
  - apply Hcons, length_flat_map_filter.
    eapply Forall_impl; [eassumption | intros f [Hf _]; exact Hf].
  - apply Hcons, length_flat_map_filter.
    eapply Forall_impl; [eassumption | intros f [Hf _]; exact Hf].
  - apply Hcons, length_flat_map_filter.
    eapply Forall_impl; [eassumption | intros f [Hf _]; exact Hf].
  - by apply Hcons.
  - by apply Hcons.
  - by apply Hcons.
  - done.
  - apply length_flat_map_filter.
    eapply Forall_impl; [eassumption | intros f [Hf _]; exact Hf].
  - done.
  - split; [| exact I]. apply length_flat_map_filter.
    eapply Forall_impl; [eassumption |].
    intros [n | items' | r] [_ Hn]; simpl in *; done.
  - done.
Qed.


End FinderCount.

(** ** The File Pipeline on a file that reads and parses *)

Lemma safe_process_file_untouched A path old new backup_dir w raw tree :
  files w !! path = Some raw →
  parse_to_ast A (universal_newlines raw) path = Ok tree →
  find_identifiers tree old = [] →
  safe_process_file A path old new backup_dir w
  = (Ok (universal_newlines raw, universal_newlines raw, false), w).
Proof.
  intros Hread Hparse Hfind.
  unfold safe_process_file, try_except, bind, read_text, lift.
  rewrite Hread, Hparse, Hfind. reflexivity.
Qed.





(** ** The annotation of a parameter: found by the Locator, skipped by the
    Rewriter *)

(** C1. On the one-function file [def f(a: x): pass] the pass that renames
    [x] to [y] reports the file as touched, and so does a second pass on its
    output: the [Name] in the annotation of the parameter is reported by the
    Locator and left as it is by the Rewriter, whose [visit_arg] does not
    descend into the annotation. *)
Theorem second_pass_still_finds_annotation :
  let first := safe_process_file Fixture.adapter "./t.py" "x" "y" "/tmp/b"
                 (Fixture.disk [("./t.py", Fixture.annotated_def_src)]) in
  ∃ original modified,
    first.1 = Ok (original, modified, true) ∧
    (safe_process_file Fixture.adapter "./t.py" "x" "y" "/tmp/b"
       (Fixture.disk [("./t.py", modified)])).1
    = Ok (modified, modified, true) ∧
    find_identifiers
      (apply_rename_to_tree Fixture.annotated_def (create_renamer "x" "y")) "x"
    = [(1, 9, "Name")]%Z.
Proof.
  exists Fixture.annotated_def_src, Fixture.annotated_def_src.
  repeat split; vm_compute; reflexivity.
Qed.

(** C5. On the same file, in the spelling in which [ast.unparse] prints it,
    the pipeline returns [touched = true] together with a modified text equal
    to the original one. *)
Theorem touched_with_unchanged_text :
  safe_process_file Fixture.adapter "./t.py" "x" "y" "/tmp/b"
    (Fixture.disk [("./t.py", Fixture.annotated_def_src)])
  = (Ok (Fixture.annotated_def_src, Fixture.annotated_def_src, true),
     Fixture.disk [("./t.py", Fixture.annotated_def_src)]).
Proof.
  unfold safe_process_file, try_except, bind, read_text, lift.
  replace (files (Fixture.disk [("./t.py", Fixture.annotated_def_src)])
             !! "./t.py") with (Some Fixture.annotated_def_src)
    by (symmetry; vm_compute; reflexivity).
  vm_compute. reflexivity.
Qed.

(** Away from annotations the two visitors agree: after a pass with
    different spellings, the Locator finds the old spelling nowhere in a tree
    whose parameters carry no annotation. *)
Section WithoutAnnotations.
Variables old_name new_name : string.
Hypothesis spellings_differ : old_name ≠ new_name.

Lemma rename_ident_fresh (ident : string) :
  old_name ≠ rename_ident old_name new_name ident.
Proof.
  unfold rename_ident. destruct (decide (ident = old_name)); congruence.
Qed.

Lemma not_in_flat_map_map {A} (ok : A → bool) (g : A → list string)
    (r : A → A) (l : list A) :
  Forall (λ x, ok x = true → old_name ∉ g (r x)) l →
  forallb ok l = true → old_name ∉ flat_map g (map r l).
Proof.
  induction 1 as [| x l Hx _ IH]; simpl.
  - intros _. apply not_elem_of_nil.
  - intros [Hokx Hokl]%andb_prop. apply not_elem_of_app. auto.
Qed.

Lemma renamed_tree_free_of_old_both :
  (∀ n, unannotated n = true →
        old_name ∉ identifiers (Renamer.visit old_name new_name n)) ∧
  (∀ f, unannotated_field f = true →
        old_name ∉ identifiers_field
                     (Renamer.visit_field old_name new_name f)).
Proof.
  set (Q := λ f : field,
         (unannotated_field f = true →
          old_name ∉ identifiers_field
                       (Renamer.visit_field old_name new_name f)) ∧
         match f with
         | FNode n => unannotated n = true →
                      old_name ∉ identifiers
                                   (Renamer.visit old_name new_name n)
         | _ => True
         end).
  cut ((∀ n, unannotated n = true →
             old_name ∉ identifiers (Renamer.visit old_name new_name n)) ∧
       (∀ f, Q f)).
  { intros [Hn Hf]. split; [exact Hn | intros f; apply Hf]. }
  assert (Hnil : old_name ∉ @nil string) by apply not_elem_of_nil.
  pose proof rename_ident_fresh as Hfresh.
  apply node_field_mutind; subst Q; simpl; intros;
    rewrite ?not_elem_of_cons; try done; try (split; auto; fail).
  1-3: split; [done |]; apply (not_in_flat_map_map unannotated_field); [| done];
       (eapply Forall_impl; [eassumption |]); intros f [Hf _]; exact Hf.
  - apply (not_in_flat_map_map unannotated_field); [| done].
    eapply Forall_impl; [eassumption |]. intros f [Hf _]; exact Hf.
  - split; [| exact I]. intros Hok.
    apply (not_in_flat_map_map
             (λ item, match item with FNode n => unannotated n | _ => true end)
             (λ item, match item with FNode n => identifiers n | _ => [] end));
      [| done].
    eapply Forall_impl; [eassumption |].
    intros [n | items' | r] [_ Hn]; simpl in *; auto.
Qed.

Lemma second_pass_clean_without_annotations (tree : node) :
  unannotated tree = true →
  find_identifiers
    (apply_rename_to_tree tree (create_renamer old_name new_name)) old_name
  = [].
Proof.
  intros Hok. unfold find_identifiers, apply_rename_to_tree, create_renamer.
  apply (proj1 (find_nil_both old_name new_name)).
  exact (proj1 renamed_tree_free_of_old_both tree Hok).
Qed.
End WithoutAnnotations.

(** ** The Diff Reporter *)

Lemma append_cons (c : ascii) (s t : string) :
  String c s +:+ t = String c (s +:+ t).
Proof. reflexivity. Qed.

Lemma append_empty_l (s : string) : "" +:+ s = s.
Proof. reflexivity. Qed.

Lemma append_empty_r (s : string) : s +:+ "" = s.
Proof.
  induction s as [| c s IH]; [reflexivity |].
  by rewrite append_cons, IH.
Qed.

Lemma append_assoc (s t u : string) : (s +:+ t) +:+ u = s +:+ t +:+ u.
Proof.
  induction s as [| c s IH]; [reflexivity |].
  by rewrite !append_cons, IH.
Qed.

Lemma join_cons (x : string) (lines : list string) :
  join (x :: lines) = x +:+ join lines.
Proof.
  unfold join. destruct lines as [| y lines]; simpl.
  - by rewrite append_empty_r.
  - reflexivity.
Qed.

Lemma splitlines_from_cons (line : string) (c : ascii) (rest : string) :
  splitlines_from line (String c rest) =
  if decide (c = CR) then
    match rest with
    | String c' rest' =>
        if decide (c' = LF)
        then (line +:+ String CR (String LF "")) :: splitlines_from "" rest'
        else (line +:+ String CR "") :: splitlines_from "" rest
    | EmptyString => (line +:+ String CR "") :: splitlines_from "" rest
    end
  else if is_line_boundary c
  then (line +:+ String c "") :: splitlines_from "" rest
  else splitlines_from (line +:+ String c "") rest.
Proof. reflexivity. Qed.

(** Joining the lines gives the text back: nothing is lost by splitting with
    [keepends=True]. *)
Lemma join_splitlines_from (s line : string) :
  join (splitlines_from line s) = line +:+ s.
Proof.
  remember (String.length s) as n eqn:Hn. revert s line Hn.
  induction n as [n IH] using lt_wf_ind. intros s line ->.
  assert (IH' : ∀ s' line', String.length s' < String.length s →
            join (splitlines_from line' s') = line' +:+ s')
    by (intros; eapply IH; eauto).
  clear IH. rename IH' into IH.
  destruct s as [| c rest].
  - simpl. destruct (decide (line = "")) as [-> | _]; [reflexivity |].
    rewrite join_cons. reflexivity.
  - rewrite splitlines_from_cons.
    destruct (decide (c = CR)) as [-> | _].
    + destruct rest as [| c' rest'].
      * rewrite join_cons, IH by (simpl; lia). by rewrite append_assoc.
      * destruct (decide (c' = LF)) as [-> | _].
        -- rewrite join_cons, IH by (simpl; lia). by rewrite append_assoc.
        -- rewrite join_cons, IH by (simpl; lia). by rewrite append_assoc.
    + destruct (is_line_boundary c).
      * rewrite join_cons, IH by (simpl; lia). by rewrite append_assoc.
      * rewrite IH by (simpl; lia). by rewrite append_assoc.
Qed.

Lemma join_splitlines (s : string) : join (splitlines s) = s.
Proof. apply join_splitlines_from. Qed.

Lemma splitlines_inj (s t : string) : splitlines s = splitlines t → s = t.
Proof.
  intros H. rewrite <- (join_splitlines s), <- (join_splitlines t).
  by rewrite H.
Qed.



(** ** The Atomic Writer *)

(** C6. Where the operating system refuses the rename, [shutil.move] copies
    the temporary file over the target in place.  Here the target lies in a
    directory in which the caller may make files but may not replace this one
    (a sticky directory of another user, the file owned by that user and
    writable by the caller): the rename raises, the copy writes the new
    content into the target and then raises while it copies the file times.  [write_file_atomic] has failed
    before the move was complete, the target no longer holds its prior
    content, and the temporary file is left beside it. *)
Theorem write_file_atomic_refused_rename_changes_target :
  let refused :=
    Exception "[Errno 1] Operation not permitted: './tmpqz4m81ab' -> './t.py'" in
  let denied := Exception "[Errno 1] Operation not permitted: './t.py'" in
  let E := Fixture.faulty_env ["t.py"] true (RenameFails refused)
             (λ src dst, if decide (dst = "./t.py")
                         then Some (Some "z = 1", denied) else None) in
  let w := Fixture.disk [("./t.py", Fixture.assign_x_src)] in
  let final := write_file_atomic E "./t.py" "z = 1" w in
  files w !! "./t.py" = Some Fixture.assign_x_src ∧
  final.1 = Raise denied ∧
  files final.2 !! "./t.py" = Some "z = 1" ∧
  files final.2 !! "./tmpqz4m81ab" = Some "z = 1" ∧
  trace final.2 = [Created "./tmpqz4m81ab"; Written "./tmpqz4m81ab";
                   CopyBroken "./tmpqz4m81ab" "./t.py"].
Proof. intros refused denied E w final. split_and!; vm_compute; reflexivity. Qed.

(** ** The probe loop of [backup_file] *)

Lemma backup_candidate_inj (backup_dir base : string) :
  Inj (=) (=) (backup_candidate backup_dir base).
Proof.
  assert (Hsuf : ∀ j k : nat,
            match j with O => ".bak" | S _ => ".bak." +:+ pretty j end
            = match k with O => ".bak" | S _ => ".bak." +:+ pretty k end →
            j = k).
  { intros [| j] [| k] H; [done | discriminate H | discriminate H |].
    apply (inj (String.append ".bak.")) in H. by apply (inj pretty) in H. }
  assert (Hpre : ∃ pre, ∀ k, backup_candidate backup_dir base k
                             = pre +:+ base +:+
                               match k with
                               | O => ".bak"
                               | S _ => ".bak." +:+ pretty k
                               end).
  { destruct base as [| c base'].
    - exists (if bool_decide (backup_dir = "") || endswith_sep backup_dir
              then backup_dir else backup_dir +:+ "/").
      intros k. unfold backup_candidate, os_path_join.
      destruct (bool_decide (backup_dir = "") || endswith_sep backup_dir);
        destruct k; by rewrite ?append_assoc.
    - exists (if bool_decide (c = sep) then ""
              else if bool_decide (backup_dir = "") || endswith_sep backup_dir
                   then backup_dir else backup_dir +:+ "/").
      intros k. unfold backup_candidate, os_path_join.
      rewrite !append_cons. simpl startswith_sep.
      destruct (bool_decide (c = sep)); [done |].
      destruct (bool_decide (backup_dir = "") || endswith_sep backup_dir);
        by rewrite ?append_assoc. }
  destruct Hpre as [pre Hpre]. intros j k H. rewrite !Hpre in H.
  apply (inj (String.append pre)) in H.
  apply (inj (String.append base)) in H. by apply Hsuf.
Qed.

Lemma backup_probe_first_free (fs : gmap string string)
    (backup_dir base : string) (fuel i k : nat) :
  i ≤ k → k ≤ i + fuel →
  fs !! backup_candidate backup_dir base k = None →
  (∀ j, i ≤ j < k → is_Some (fs !! backup_candidate backup_dir base j)) →
  backup_probe fuel fs backup_dir base
    (backup_candidate backup_dir base i) (S i)
  = Some (backup_candidate backup_dir base k).
Proof.
  revert i. induction fuel as [| fuel IH]; intros i Hik Hfuel Hfree Htaken.
  - assert (k = i) as -> by lia. simpl.
    rewrite bool_decide_eq_false_2; [done |].
    rewrite Hfree. by apply is_Some_None.
  - simpl.
    destruct (decide (is_Some (fs !! backup_candidate backup_dir base i)))
      as [Hi | Hi].
    + rewrite bool_decide_eq_true_2 by done.
      assert (i ≠ k) by (intros ->; rewrite Hfree in Hi; by apply is_Some_None in Hi).
      rewrite Nat.add_1_r.
      change (os_path_join backup_dir (base +:+ ".bak." +:+ pretty (S i)))
        with (backup_candidate backup_dir base (S i)).
      apply IH; [lia | lia | done |]. intros j Hj. apply Htaken. lia.
    + rewrite bool_decide_eq_false_2 by done.
      destruct (decide (i = k)) as [-> | Hne]; [done |].
      exfalso. apply Hi, Htaken. lia.
Qed.

(** Among the first [size fs + 1] candidates one is free: the candidates are
    pairwise different and [fs] holds [size fs] files. *)
Lemma backup_candidate_free (fs : gmap string string)
    (backup_dir base : string) :
  ∃ k, k ≤ size fs ∧
       fs !! backup_candidate backup_dir base k = None ∧
       ∀ j, j < k → is_Some (fs !! backup_candidate backup_dir base j).
Proof.
  set (cand := backup_candidate backup_dir base).
  assert (Hscan : ∀ n,
            (∀ j, j < n → is_Some (fs !! cand j)) ∨
            (∃ k, k < n ∧ fs !! cand k = None ∧
                  ∀ j, j < k → is_Some (fs !! cand j))).
  { induction n as [| n [IH | (k & Hk & Hfree & Hlow)]].
    - left. intros j Hj. lia.
    - destruct (fs !! cand n) as [bytes |] eqn:Hn.
      + left. intros j Hj. destruct (decide (j = n)) as [-> | Hne].
        * by rewrite Hn.
        * apply IH. lia.
      + right. exists n. split_and!; [lia | done | done].
    - right. exists k. split_and!; [lia | done | done]. }
  destruct (Hscan (S (size fs))) as [Hall | (k & Hk & Hfree & Hlow)].
  - exfalso.
    assert (Hsub : list_to_set (cand <$> seq 0 (S (size fs))) ⊆ dom fs).
    { intros p Hp. apply elem_of_list_to_set, list_elem_of_fmap in Hp.
      destruct Hp as (j & -> & Hj). apply elem_of_seq in Hj.
      apply elem_of_dom, Hall. lia. }
    apply subseteq_size in Hsub.
    rewrite size_dom, size_list_to_set, length_fmap, length_seq in Hsub;
      [lia |].
    apply (@NoDup_fmap_2 _ _ cand (backup_candidate_inj backup_dir base)),
      NoDup_seq.
  - exists k. split_and!; [lia | done | done].
Qed.

Lemma dict_get_set {V} (d : dict V) (k : string) (v : V) :
  dict_get (dict_set d k v) k = Some v.
Proof.
  induction d as [| [k' v'] d IH]; simpl.
  - by rewrite decide_True.
  - destruct (decide (k' = k)) as [-> | Hne]; simpl.
    + by rewrite decide_True.
    + by rewrite decide_False.
Qed.

(** The loop of [backup_file] ends, with the first candidate that is free;
    the copy goes there. *)
Lemma backup_file_probe (E : Env) (path backup_dir : string)
    (manifest : dict string) (w : world) :
  ∃ k,
    (∀ j, j < k →
       is_Some (files w !! backup_candidate backup_dir
                              (os_path_basename path) j)) ∧
    files w !! backup_candidate backup_dir (os_path_basename path) k = None ∧
    backup_file E path backup_dir manifest w
    = (shutil_copy2 E path
         (backup_candidate backup_dir (os_path_basename path) k) ;;;
       ret (dict_set manifest path
              (backup_candidate backup_dir (os_path_basename path) k))) w.
Proof.
  destruct (backup_candidate_free (files w) backup_dir (os_path_basename path))
    as (k & Hk & Hfree & Hlow).
  exists k. split_and!; [done | done |]. unfold backup_file.
  change (os_path_join backup_dir (os_path_basename path +:+ ".bak"))
    with (backup_candidate backup_dir (os_path_basename path) 0).
  rewrite (backup_probe_first_free _ _ _ _ 0 k); [done | lia | lia | done |].
  intros j Hj. apply Hlow. lia.
Qed.

Lemma shutil_copy2_done (E : Env) (src dst bytes : string) (w : world) :
  files w !! src = Some bytes → src ≠ dst → copy_fault E src dst = None →
  shutil_copy2 E src dst w
  = (Ok tt, World (<[dst := bytes]> (files w)) (trace w ++ [Copied src dst])).
Proof.
  intros Hsrc Hne Hok. unfold shutil_copy2.
  by rewrite Hsrc, decide_False, Hok by done.
Qed.

Lemma shutil_copy2_fault (E : Env) (src dst bytes : string) (w : world)
    (reached : option string) (e : exn) :
  files w !! src = Some bytes → src ≠ dst →
  copy_fault E src dst = Some (reached, e) →
  (shutil_copy2 E src dst w).1 = Raise e.
Proof.
  intros Hsrc Hne Hfault. unfold shutil_copy2.
  rewrite Hsrc, decide_False, Hfault by done. by destruct reached.
Qed.

(** C7. On a file that exists, [backup_file] copies its bytes to the first
    name of the sequence [base.bak], [base.bak.1], [base.bak.2], ... under
    [backup_dir] that is free (every earlier name is taken, the chosen one did
    not exist), and records the chosen path under [path] in the manifest.
    A copy that meets an error there leaves [backup_file] with that error,
    and no manifest is handed back. *)
Theorem backup_file_first_free_name (E : Env) (path backup_dir : string)
    (manifest : dict string) (w : world) (bytes : string) :
  files w !! path = Some bytes →
  ∃ k,
    let backup_path :=
      backup_candidate backup_dir (os_path_basename path) k in
    (∀ j, j < k →
       is_Some (files w !! backup_candidate backup_dir
                              (os_path_basename path) j)) ∧
    files w !! backup_path = None ∧
    (copy_fault E path backup_path = None →
     backup_file E path backup_dir manifest w
     = (Ok (dict_set manifest path backup_path),
        World (<[backup_path := bytes]> (files w))
              (trace w ++ [Copied path backup_path]))) ∧
    (∀ reached e,
       copy_fault E path backup_path = Some (reached, e) →
       (backup_file E path backup_dir manifest w).1 = Raise e) ∧
    dict_get (dict_set manifest path backup_path) path = Some backup_path.
Proof.
  intros Hpath.
  destruct (backup_file_probe E path backup_dir manifest w)
    as (k & Hlow & Hfree & Hrun).
  assert (Hne : path ≠ backup_candidate backup_dir (os_path_basename path) k)
    by congruence.
  exists k. simpl. split_and!; [done | done | | | apply dict_get_set].
  - intros Hok. rewrite Hrun. unfold bind.
    by rewrite (shutil_copy2_done E _ _ bytes).
  - intros reached e Hfault. rewrite Hrun. unfold bind.
    pose proof (shutil_copy2_fault E _ _ bytes w reached e Hpath Hne Hfault)
      as Hraise.
    destruct (shutil_copy2 E path _ w) as [[[] | e'] w1]; simpl in *;
      congruence.
Qed.

Lemma backup_file_first_free_name_witness :
  let E := Fixture.env ["t.py"] true in
  let w := Fixture.disk [("./t.py", Fixture.assign_x_src);
                         ("/tmp/b/t.py.bak", "y = 2")] in
  files w !! "./t.py" = Some Fixture.assign_x_src ∧
  ∃ k,
    let backup_path :=
      backup_candidate "/tmp/b" (os_path_basename "./t.py") k in
    (∀ j, j < k →
       is_Some (files w !! backup_candidate "/tmp/b"
                              (os_path_basename "./t.py") j)) ∧
    files w !! backup_path = None ∧
    (copy_fault E "./t.py" backup_path = None →
     backup_file E "./t.py" "/tmp/b" [] w
     = (Ok (dict_set [] "./t.py" backup_path),
        World (<[backup_path := Fixture.assign_x_src]> (files w))
              (trace w ++ [Copied "./t.py" backup_path]))) ∧
    (∀ reached e,
       copy_fault E "./t.py" backup_path = Some (reached, e) →
       (backup_file E "./t.py" "/tmp/b" [] w).1 = Raise e) ∧
    dict_get (dict_set [] "./t.py" backup_path) "./t.py" = Some backup_path.
Proof.
  intros E w.
  assert (Hpath : files w !! "./t.py" = Some Fixture.assign_x_src)
    by (vm_compute; reflexivity).
  split; [exact Hpath |].
  exact (backup_file_first_free_name E "./t.py" "/tmp/b" [] w
           Fixture.assign_x_src Hpath).
Defined.

(** The same run, evaluated: [t.py.bak] is taken, [t.py.bak.1] is chosen. *)
Example backup_file_skips_taken_name :
  (backup_file (Fixture.env ["t.py"] true) "./t.py" "/tmp/b" []
     (Fixture.disk [("./t.py", Fixture.assign_x_src);
                    ("/tmp/b/t.py.bak", "y = 2")])).1
  = Ok [("./t.py", "/tmp/b/t.py.bak.1")].
Proof. vm_compute. reflexivity. Qed.

(** ** Undo *)

Lemma for_each_cons {A} (x : A) (xs : list A) (body : A → io unit) :
  for_each (x :: xs) body = (body x ;;; for_each xs body).
Proof. reflexivity. Qed.

Lemma restore_backups_loaded (E : Env) (J : Json)
    (manifest_path text : string) (manifest : dict string) (w : world) :
  files w !! manifest_path = Some text →
  json_load J (universal_newlines text) = Ok manifest →
  restore_backups E J manifest_path w
  = for_each manifest (restore_entry E) w.
Proof.
  intros Hfile Hload.
  unfold restore_backups, bind, os_path_exists, read_text, lift.
  rewrite bool_decide_eq_true_2 by (by rewrite Hfile).
  by rewrite Hfile, Hload.
Qed.

Lemma restore_entry_done (E : Env) (original backup : string) (w : world) :
  copy_error E backup original = None →
  restore_entry E (original, backup) w
  = (Ok tt, restore_step w (original, backup)).
Proof.
  intros Hok. unfold restore_entry, restore_step, bind, os_path_exists.
  destruct (files w !! backup) as [bytes |] eqn:Hbackup.
  - rewrite bool_decide_eq_true_2 by done.
    unfold copy_error in Hok.
    destruct (decide (backup = original)) as [| Hne]; [discriminate |].
    destruct (copy_fault E backup original) as [[reached e] |] eqn:Hfault;
      [discriminate |].
    rewrite (shutil_copy2_done E backup original bytes) by done.
    unfold print, emit. simpl. by rewrite <- app_assoc.
  - rewrite bool_decide_eq_false_2 by (by apply is_Some_None).
    reflexivity.
Qed.

Lemma restore_entry_raises (E : Env) (original backup : string) (w : world)
    (e : exn) :
  is_Some (files w !! backup) →
  copy_error E backup original = Some e →
  ∃ w', restore_entry E (original, backup) w = (Raise e, w') ∧
        (trace w' = trace w ∨
         trace w' = trace w ++ [CopyBroken backup original]).
Proof.
  intros [bytes Hbackup] Herr.
  unfold restore_entry, bind, os_path_exists.
  rewrite bool_decide_eq_true_2 by (by rewrite Hbackup).
  unfold shutil_copy2, copy_error in *. rewrite Hbackup.
  destruct (decide (backup = original)) as [| Hne].
  - injection Herr as <-. eauto.
  - destruct (copy_fault E backup original) as [[[reached |] e'] |];
      simpl in Herr; [| | discriminate]; injection Herr as ->; eauto.
Qed.

Lemma restore_entries_done (E : Env) (manifest : dict string) (w : world) :
  Forall (λ entry, copy_error E entry.2 entry.1 = None) manifest →
  for_each manifest (restore_entry E) w
  = (Ok tt, foldl restore_step w manifest).
Proof.
  intros Hall. revert w.
  induction Hall as [| [original backup] manifest Hok _ IH]; intros w;
    [reflexivity |].
  rewrite for_each_cons. unfold bind.
  rewrite restore_entry_done by exact Hok. apply IH.
Qed.

Lemma restore_entries_raise (E : Env) (before after : dict string)
    (original backup : string) (w : world) (e : exn) :
  Forall (λ entry, copy_error E entry.2 entry.1 = None) before →
  is_Some (files (foldl restore_step w before) !! backup) →
  copy_error E backup original = Some e →
  ∃ w', for_each (before ++ (original, backup) :: after) (restore_entry E) w
        = (Raise e, w') ∧
        (trace w' = trace (foldl restore_step w before) ∨
         trace w' = trace (foldl restore_step w before)
                    ++ [CopyBroken backup original]).
Proof.
  intros Hall. revert w.
  induction Hall as [| [o b] before Hok _ IH]; intros w Hbackup Herr.
  - rewrite app_nil_l, for_each_cons. unfold bind.
    destruct (restore_entry_raises E original backup w e Hbackup Herr)
      as (w' & -> & Htrace).
    by exists w'.
  - simpl app. rewrite for_each_cons. unfold bind.
    rewrite restore_entry_done by exact Hok. by apply IH.
Qed.

(** C8, as the code has it. [restore_backups] goes through the entries of the
    manifest in order.  As long as no copy raises, every entry is attempted,
    one after the other, on the world the earlier entries left: a backup that
    exists is copied over its original and [Restored: original] is printed, a
    backup that is missing is reported with [Backup not found: backup] and the
    entry is skipped; the undo ends without an exception.  The first entry
    whose backup exists and whose copy raises ends the undo with the error of
    that copy: nothing is printed for it, and no later entry is attempted. *)
Theorem restore_backups_attempts_each_entry (E : Env) (J : Json)
    (manifest_path text : string) (manifest : dict string) (w : world) :
  files w !! manifest_path = Some text →
  json_load J (universal_newlines text) = Ok manifest →
  (Forall (λ entry, copy_error E entry.2 entry.1 = None) manifest →
   restore_backups E J manifest_path w
   = (Ok tt, foldl restore_step w manifest)) ∧
  (∀ before original backup after e,
     manifest = before ++ (original, backup) :: after →
     Forall (λ entry, copy_error E entry.2 entry.1 = None) before →
     is_Some (files (foldl restore_step w before) !! backup) →
     copy_error E backup original = Some e →
     ∃ w', restore_backups E J manifest_path w = (Raise e, w') ∧
           (trace w' = trace (foldl restore_step w before) ∨
            trace w' = trace (foldl restore_step w before)
                       ++ [CopyBroken backup original])).
Proof.
  intros Hfile Hload.
  rewrite (restore_backups_loaded E J manifest_path text manifest) by done.
  split.
  - apply restore_entries_done.
  - intros before original backup after e -> Hall Hbackup Herr.
    by apply restore_entries_raise.
Qed.

Lemma restore_backups_attempts_each_entry_witness :
  let E := Fixture.env [] true in
  let J := Fixture.json [Fixture.manifest_with_gap] in
  let text := Fixture.dump Fixture.manifest_with_gap in
  let w := Fixture.disk [("./t.py", "z = 1");
                         ("/tmp/b/t.py.bak", Fixture.assign_x_src);
                         (".rename_manifest.json", text)] in
  files w !! ".rename_manifest.json" = Some text ∧
  json_load J (universal_newlines text) = Ok Fixture.manifest_with_gap ∧
  Forall (λ entry, copy_error E entry.2 entry.1 = None)
         Fixture.manifest_with_gap ∧
  restore_backups E J ".rename_manifest.json" w
  = (Ok tt, foldl restore_step w Fixture.manifest_with_gap).
Proof.
  intros E J text w.
  assert (Hfile : files w !! ".rename_manifest.json" = Some text)
    by (vm_compute; reflexivity).
  assert (Hload : json_load J (universal_newlines text)
                  = Ok Fixture.manifest_with_gap)
    by (vm_compute; reflexivity).
  assert (Hall : Forall (λ entry, copy_error E entry.2 entry.1 = None)
                        Fixture.manifest_with_gap)
    by (repeat constructor).
  split_and!; [exact Hfile | exact Hload | exact Hall |].
  exact (proj1 (restore_backups_attempts_each_entry E J
                  ".rename_manifest.json" text Fixture.manifest_with_gap w
                  Hfile Hload) Hall).
Defined.

(** What that undo leaves: [./t.py] restored, the missing
    backup of [./u.py] reported, both entries attempted. *)
Example restore_backups_reports_missing_backup :
  let w := Fixture.disk [("./t.py", "z = 1");
                         ("/tmp/b/t.py.bak", Fixture.assign_x_src);
                         (".rename_manifest.json",
                          Fixture.dump Fixture.manifest_with_gap)] in
  let w' := foldl restore_step w Fixture.manifest_with_gap in
  files w' !! "./t.py" = Some Fixture.assign_x_src ∧
  trace w' = [Copied "/tmp/b/t.py.bak" "./t.py"; Printed "Restored: ./t.py";
              Printed "Backup not found: /tmp/b/u.py.bak"].
Proof. split; vm_compute; reflexivity. Qed.

(** C8, as stated, fails on a manifest whose first entry has the original
    itself as its backup: the backup exists, [shutil.copy2] raises
    [SameFileError], no success is reported and the second entry, whose backup
    is missing, is never reported: the undo has ended. *)
Lemma restore_backups_stops_on_same_file :
  let E := Fixture.env [] true in
  let J := Fixture.json [Fixture.manifest_with_self] in
  let w := Fixture.disk [("a.py", "x = 1");
                         (".rename_manifest.json",
                          Fixture.dump Fixture.manifest_with_self)] in
  is_Some (files w !! "a.py") ∧
  files w !! "gone.bak" = None ∧
  restore_backups E J ".rename_manifest.json" w
  = (Raise (SameFileError "a.py" "a.py"), w) ∧
  trace (restore_backups E J ".rename_manifest.json" w).2 = [] ∧
  run Fixture.adapter Fixture.difflib J E Fixture.undo_args w
  = (Ok 1%Z,
     World (files w)
           [Printed "Fatal error: 'a.py' and 'a.py' are the same file"]).
Proof.
  intros E J w.
  assert (Hrun : restore_backups E J ".rename_manifest.json" w
                 = (Raise (SameFileError "a.py" "a.py"), w)).
  { vm_compute. reflexivity. }
  split_and!.
  - vm_compute. eauto.
  - vm_compute. reflexivity.
  - exact Hrun.
  - by rewrite Hrun.
  - vm_compute. reflexivity.
Qed.

(** The same happens with a backup that is another name of its original (a
    hard link): the two paths differ, the copy raises all the same, and the
    entry after it is never attempted. *)
Example restore_backups_stops_on_linked_backup :
  let E := Fixture.faulty_env [] true NoFault Fixture.linked in
  let J := Fixture.json [Fixture.manifest_with_link] in
  let w := Fixture.disk [("a.py", "x = 1"); ("/tmp/b/a.py.bak", "x = 1");
                         (".rename_manifest.json",
                          Fixture.dump Fixture.manifest_with_link)] in
  restore_backups E J ".rename_manifest.json" w
  = (Raise (SameFileError "/tmp/b/a.py.bak" "a.py"), w).
Proof. vm_compute. reflexivity. Qed.

(** ** Files that fail, and empty files *)

Lemma safe_process_file_fails (A : TreeAdapter)
    (path old new backup_dir : string) (w : world) (e : exn) :
  (files w !! path = None ∧ e = FileNotFoundError path) ∨
  (∃ text, files w !! path = Some text ∧
           parse_to_ast A (universal_newlines text) path = Raise e) →
  safe_process_file A path old new backup_dir w
  = (Ok ("", "", false),
     World (files w)
           (trace w ++ [Printed ("Error processing " +:+ path +:+ ": "
                                 +:+ exn_msg e)])).
Proof.
  unfold safe_process_file, try_except, bind, read_text, lift.
  intros [[Hnone ->] | (text & Hread & Hparse)].
  - by rewrite Hnone.
  - by rewrite Hread, Hparse.
Qed.

Lemma scan_file_skips_empty_original (A : TreeAdapter) (E : Env) (args : Args)
    (backup_dir path : string) (st : dict (string * string) * dict string)
    (w w' : world) (modified : string) (touched : bool) :
  safe_process_file A path (args_old args) (args_new args) backup_dir w
  = (Ok ("", modified, touched), w') →
  scan_file A E args backup_dir st path w = (Ok st, w').
Proof.
  intros Hsafe. unfold scan_file. destruct st as [changes manifest].
  unfold bind. rewrite Hsafe. by rewrite decide_False by (intros H; by apply H).
Qed.

Lemma scan_files_cons (A : TreeAdapter) (E : Env) (args : Args)
    (backup_dir : string)
    (path : string) (rest : list string)
    (st : dict (string * string) * dict string) :
  scan_files A E args backup_dir (path :: rest) st
  = (st' <- scan_file A E args backup_dir st path ;;
     scan_files A E args backup_dir rest st').
Proof. reflexivity. Qed.

(** C4, as the code has it. When reading or parsing a file raises, the
    pipeline catches the exception, prints [Error processing <path>: ...],
    and returns two empty texts with [touched = false]; the scanning loop
    leaves [changes] and [manifest] as they were and goes on with the
    remaining files.  The failed file has no entry in [changes], from which
    alone the summary is computed. *)
Theorem failed_file_is_reported_and_skipped (A : TreeAdapter) (E : Env)
    (args : Args) (backup_dir path : string) (rest : list string)
    (st : dict (string * string) * dict string) (w : world) (e : exn) :
  (files w !! path = None ∧ e = FileNotFoundError path) ∨
  (∃ text, files w !! path = Some text ∧
           parse_to_ast A (universal_newlines text) path = Raise e) →
  let w' := World (files w)
              (trace w ++ [Printed ("Error processing " +:+ path +:+ ": "
                                    +:+ exn_msg e)]) in
  safe_process_file A path (args_old args) (args_new args) backup_dir w
  = (Ok ("", "", false), w') ∧
  scan_file A E args backup_dir st path w = (Ok st, w') ∧
  scan_files A E args backup_dir (path :: rest) st w
  = scan_files A E args backup_dir rest st w'.
Proof.
  intros Hfail w'.
  pose proof (safe_process_file_fails A path (args_old args) (args_new args)
                backup_dir w e Hfail) as Hsafe.
  pose proof (scan_file_skips_empty_original A E args backup_dir path st w w'
                "" false Hsafe) as Hscan.
  split_and!; [exact Hsafe | exact Hscan |].
  rewrite scan_files_cons. unfold bind. by rewrite Hscan.
Qed.

Lemma failed_file_is_reported_and_skipped_witness :
  let A := Fixture.adapter in
  let E := Fixture.env ["t.py"; "u.py"] true in
  let args := Fixture.args "x" "z" true false in
  let w := Fixture.disk [("./t.py", Fixture.broken_src);
                         ("./u.py", Fixture.assign_x_src)] in
  let e := Exception "invalid syntax (t.py, line 1)" in
  let w' := World (files w)
              (trace w ++ [Printed ("Error processing " +:+ "./t.py" +:+ ": "
                                    +:+ exn_msg e)]) in
  ((files w !! "./t.py" = None ∧ e = FileNotFoundError "./t.py") ∨
   (∃ text, files w !! "./t.py" = Some text ∧
            parse_to_ast A (universal_newlines text) "./t.py" = Raise e)) ∧
  safe_process_file A "./t.py" "x" "z" "/tmp/b" w = (Ok ("", "", false), w') ∧
  scan_file A E args "/tmp/b" ([], []) "./t.py" w = (Ok ([], []), w') ∧
  scan_files A E args "/tmp/b" ["./t.py"; "./u.py"] ([], []) w
  = scan_files A E args "/tmp/b" ["./u.py"] ([], []) w'.
Proof.
  intros A E args w e w'.
  assert (Hfail : (files w !! "./t.py" = None ∧ e = FileNotFoundError "./t.py") ∨
                  (∃ text, files w !! "./t.py" = Some text ∧
                           parse_to_ast A (universal_newlines text) "./t.py"
                           = Raise e)).
  { right. exists Fixture.broken_src. split; vm_compute; reflexivity. }
  split; [exact Hfail |].
  exact (failed_file_is_reported_and_skipped A E args "/tmp/b" "./t.py"
           ["./u.py"] ([], []) w e Hfail).
Defined.

(** C4, as stated, fails on a directory whose only file does not parse: one
    file is found, the scan ends with an empty [changes], and the summary
    counts no file at all, neither as scanned nor as modified nor as
    unchanged. *)
Lemma failed_file_is_not_counted :
  let args := Fixture.args "x" "z" true false in
  let w := Fixture.disk [("./t.py", Fixture.broken_src)] in
  let E := Fixture.env ["t.py"] true in
  collect_py_files E "." = ["./t.py"] ∧
  (scan_files Fixture.adapter E args "/tmp/b" ["./t.py"] ([], []) w).1
  = Ok ([], []) ∧
  summarize_stats []
  = {| files_scanned := 0; files_modified := 0; files_unchanged := 0 |} ∧
  run Fixture.adapter Fixture.difflib (Fixture.json []) E args w
  = (Ok 0%Z,
     World (files w)
       [Printed "Scanning Python files in: .";
        Printed "Found 1 Python files";
        MadeDir "/tmp/ast_rename_backup_k3x9w_p1";
        Printed "Error processing ./t.py: invalid syntax (t.py, line 1)";
        Printed (nl +:+ rule);
        Printed "Summary: 0 files to modify, 0 unchanged";
        Printed rule;
        Printed (nl +:+ "Use --apply to write changes")]).
Proof. intros args w E. split_and!; vm_compute; reflexivity. Qed.

(** C10. A file whose content is the empty string parses and holds no
    occurrence; the pipeline returns two empty texts with [touched = false],
    the truthiness test on the original text keeps the file out of [changes],
    and so it is counted in none of the three numbers of the summary: what
    the scan passes on is what it would pass on without the file, and a scan
    of that file alone gives the statistics of no file.  A file that fails is
    kept out by the same test. *)
Theorem empty_file_is_left_out (A : TreeAdapter) (E : Env) (args : Args)
    (backup_dir path : string) (rest : list string)
    (st : dict (string * string) * dict string) (w : world) (tree : node) :
  files w !! path = Some "" →
  parse_to_ast A "" path = Ok tree →
  find_identifiers tree (args_old args) = [] →
  safe_process_file A path (args_old args) (args_new args) backup_dir w
  = (Ok ("", "", false), w) ∧
  scan_file A E args backup_dir st path w = (Ok st, w) ∧
  scan_files A E args backup_dir (path :: rest) st w
  = scan_files A E args backup_dir rest st w ∧
  (scan_files A E args backup_dir [path] ([], []) w).1 = Ok ([], []) ∧
  summarize_stats []
  = {| files_scanned := 0; files_modified := 0; files_unchanged := 0 |} ∧
  ∀ w2, files w2 !! path = None →
        (scan_file A E args backup_dir st path w2).1 = Ok st.
Proof.
  intros Hread Hparse Hfind.
  pose proof (safe_process_file_untouched A path (args_old args)
                (args_new args) backup_dir w "" tree Hread Hparse Hfind)
    as Hsafe.
  assert (Hscan : ∀ st', scan_file A E args backup_dir st' path w = (Ok st', w))
    by (intros st'; eapply scan_file_skips_empty_original; exact Hsafe).
  split_and!; [exact Hsafe | apply Hscan | | | reflexivity |].
  - rewrite scan_files_cons. unfold bind. by rewrite Hscan.
  - rewrite scan_files_cons. unfold bind. by rewrite Hscan.
  - intros w2 Hnone.
    erewrite scan_file_skips_empty_original; [reflexivity |].
    apply safe_process_file_fails. left. split; [exact Hnone | reflexivity].
Qed.

Lemma empty_file_is_left_out_witness :
  let A := Fixture.adapter in
  let E := Fixture.env ["empty.py"; "u.py"] true in
  let args := Fixture.args "x" "z" true false in
  let w := Fixture.disk [("./empty.py", ""); ("./u.py", Fixture.assign_x_src)] in
  files w !! "./empty.py" = Some "" ∧
  parse_to_ast A "" "./empty.py" = Ok (Fixture.module_ []) ∧
  find_identifiers (Fixture.module_ []) (args_old args) = [] ∧
  safe_process_file A "./empty.py" (args_old args) (args_new args) "/tmp/b" w
  = (Ok ("", "", false), w) ∧
  scan_file A E args "/tmp/b" ([], []) "./empty.py" w = (Ok ([], []), w) ∧
  scan_files A E args "/tmp/b" ["./empty.py"; "./u.py"] ([], []) w
  = scan_files A E args "/tmp/b" ["./u.py"] ([], []) w ∧
  (scan_files A E args "/tmp/b" ["./empty.py"] ([], []) w).1 = Ok ([], []) ∧
  summarize_stats []
  = {| files_scanned := 0; files_modified := 0; files_unchanged := 0 |} ∧
  ∀ w2, files w2 !! "./empty.py" = None →
        (scan_file A E args "/tmp/b" ([], []) "./empty.py" w2).1 = Ok ([], []).
Proof.
  intros A E args w.
  assert (Hread : files w !! "./empty.py" = Some "") by (vm_compute; reflexivity).
  assert (Hparse : parse_to_ast A "" "./empty.py" = Ok (Fixture.module_ []))
    by reflexivity.
  assert (Hfind : find_identifiers (Fixture.module_ []) (args_old args) = [])
    by reflexivity.
  split_and!; [exact Hread | exact Hparse | exact Hfind | ..];
    apply (empty_file_is_left_out A E args "/tmp/b" "./empty.py" ["./u.py"]
             ([], []) w (Fixture.module_ []) Hread Hparse Hfind).
Defined.

(** ** What a run adds to the record *)

Lemma adds_only_mono {A} (φ ψ : event → Prop) (c : io A) :
  (∀ e, φ e → ψ e) → adds_only φ c → adds_only ψ c.
Proof.
  intros Himpl Hc w. destruct (Hc w) as (tr & Htr & Hall).
  exists tr. split; [done |]. by eapply Forall_impl.
Qed.

Lemma adds_only_ret {A} (φ : event → Prop) (a : A) : adds_only φ (ret a).
Proof. intros w. exists []. by rewrite app_nil_r. Qed.

Lemma adds_only_raise {A} (φ : event → Prop) (e : exn) :
  adds_only φ (@raise A e).
Proof. intros w. exists []. by rewrite app_nil_r. Qed.

Lemma adds_only_lift {A} (φ : event → Prop) (r : result A) :
  adds_only φ (lift r).
Proof. intros w. exists []. by rewrite app_nil_r. Qed.

Lemma adds_only_emit (φ : event → Prop) (e : event) :
  φ e → adds_only φ (emit e).
Proof. intros He w. exists [e]. split; [done | by constructor]. Qed.

Lemma adds_only_print (φ : event → Prop) (line : string) :
  φ (Printed line) → adds_only φ (print line).
Proof. apply adds_only_emit. Qed.

Lemma adds_only_bind {A B} (φ : event → Prop) (c : io A) (k : A → io B) :
  adds_only φ c → (∀ a, adds_only φ (k a)) → adds_only φ (bind c k).
Proof.
  intros Hc Hk w. unfold bind.
  destruct (Hc w) as (tr1 & Htr1 & Hall1).
  destruct (c w) as [[a | e] w1]; simpl in *.
  - destruct (Hk a w1) as (tr2 & Htr2 & Hall2).
    exists (tr1 ++ tr2). rewrite Htr2, Htr1, app_assoc.
    split; [done | by apply Forall_app].
  - by exists tr1.
Qed.

Lemma adds_only_try_except {A} (φ : event → Prop) (c : io A)
    (h : exn → io A) :
  adds_only φ c → (∀ e, adds_only φ (h e)) → adds_only φ (try_except c h).
Proof.
  intros Hc Hh w. unfold try_except.
  destruct (Hc w) as (tr1 & Htr1 & Hall1).
  destruct (c w) as [[a | e] w1]; simpl in *.
  - by exists tr1.
  - destruct (Hh e w1) as (tr2 & Htr2 & Hall2).
    exists (tr1 ++ tr2). rewrite Htr2, Htr1, app_assoc.
    split; [done | by apply Forall_app].
Qed.

Lemma adds_only_for_each {A} (φ : event → Prop) (xs : list A)
    (body : A → io unit) :
  (∀ x, x ∈ xs → adds_only φ (body x)) → adds_only φ (for_each xs body).
Proof.
  induction xs as [| x xs IH]; intros Hbody.
  - apply adds_only_ret.
  - rewrite for_each_cons. apply adds_only_bind.
    + apply Hbody. by left.
    + intros _. apply IH. intros y Hy. apply Hbody. by right.
Qed.

Lemma adds_only_os_path_exists (φ : event → Prop) (p : string) :
  adds_only φ (os_path_exists p).
Proof. intros w. exists []. by rewrite app_nil_r. Qed.

Lemma adds_only_read_text (φ : event → Prop) (p : string) :
  adds_only φ (read_text p).
Proof.
  intros w. exists []. unfold read_text.
  destruct (files w !! p); by rewrite app_nil_r.
Qed.

Lemma adds_only_write_text (φ : event → Prop) (p text : string) :
  φ (Written p) → adds_only φ (write_text p text).
Proof. intros Hp w. exists [Written p]. split; [done | by constructor]. Qed.

Lemma adds_only_create_file (φ : event → Prop) (p : string) :
  φ (Created p) → adds_only φ (create_file p).
Proof. intros Hp w. exists [Created p]. split; [done | by constructor]. Qed.

Lemma adds_only_shutil_copy2 (φ : event → Prop) (E : Env)
    (src dst : string) :
  φ (Copied src dst) → φ (CopyBroken src dst) →
  adds_only φ (shutil_copy2 E src dst).
Proof.
  intros Hdone Hbroken w. unfold shutil_copy2.
  destruct (files w !! src); [destruct (decide (src = dst)) |].
  - exists []. by rewrite app_nil_r.
  - destruct (copy_fault E src dst) as [[[reached |] e] |].
    + exists [CopyBroken src dst]. split; [done | by constructor].
    + exists []. by rewrite app_nil_r.
    + exists [Copied src dst]. split; [done | by constructor].
  - exists []. by rewrite app_nil_r.
Qed.

Lemma adds_only_os_rename (φ : event → Prop) (refused : option exn)
    (src dst : string) :
  φ (Moved src dst) → adds_only φ (os_rename refused src dst).
Proof.
  intros Hp w. unfold os_rename.
  destruct refused; [exists []; by rewrite app_nil_r |].
  destruct (files w !! src).
  - exists [Moved src dst]. split; [done | by constructor].
  - exists []. by rewrite app_nil_r.
Qed.

Lemma adds_only_os_unlink (φ : event → Prop) (E : Env) (p : string) :
  φ (Removed p) → adds_only φ (os_unlink E p).
Proof.
  intros Hp w. unfold os_unlink.
  destruct (files w !! p); [destruct (unlink_fault E p) |].
  - exists []. by rewrite app_nil_r.
  - exists [Removed p]. split; [done | by constructor].
  - exists []. by rewrite app_nil_r.
Qed.

Ltac adds_only_step :=
  first
    [ apply adds_only_ret
    | apply adds_only_raise
    | apply adds_only_lift
    | apply adds_only_print; exact I
    | apply adds_only_emit; exact I
    | apply adds_only_os_path_exists
    | apply adds_only_read_text
    | apply adds_only_write_text; exact I
    | apply adds_only_create_file; exact I
    | apply adds_only_shutil_copy2; exact I
    | apply adds_only_os_unlink; exact I
    | apply adds_only_bind; [| intros ?]
    | apply adds_only_try_except; [| intros ?]
    | match goal with
      | |- adds_only _ (if ?b then _ else _) => destruct b
      | |- adds_only _ (match ?x with (_, _) => _ end) => destruct x
      end ].

Lemma adds_only_mkstemp_inner (φ : event → Prop) (dir : string)
    (names : list string) :
  (∀ p, φ (Created p)) → adds_only φ (mkstemp_inner dir names).
Proof.
  intros Hφ. induction names as [| name names IH]; simpl.
  - apply adds_only_raise.
  - apply adds_only_bind; [apply adds_only_os_path_exists |].
    intros [|]; [exact IH |].
    apply adds_only_bind; [by apply adds_only_create_file |].
    intros _. apply adds_only_ret.
Qed.

Lemma adds_only_shutil_move (φ : event → Prop) (E : Env)
    (refused : option exn) (src dst : string) :
  φ (Moved src dst) → φ (Copied src dst) → φ (CopyBroken src dst) →
  φ (Removed src) →
  adds_only φ (shutil_move E refused src dst).
Proof.
  intros Hmoved Hdone Hbroken Hremoved. unfold shutil_move.
  apply adds_only_try_except; [by apply adds_only_os_rename | intros _].
  apply adds_only_bind; [by apply adds_only_shutil_copy2 | intros _].
  by apply adds_only_os_unlink.
Qed.

Lemma adds_only_write_file_atomic (E : Env) (path content : string) :
  adds_only (overwrites_only (λ p, p = path))
            (write_file_atomic E path content).
Proof.
  unfold write_file_atomic.
  apply adds_only_bind.
  { unfold NamedTemporaryFile.
    destruct (write_fault E path); try apply adds_only_raise;
      apply adds_only_mkstemp_inner; intros; exact I. }
  intros tmp_path. apply adds_only_bind.
  { unfold tmp_write.
    destruct (write_fault E path); repeat adds_only_step. }
  intros _. by apply adds_only_shutil_move.
Qed.

Lemma adds_only_apply_changes (E : Env) (changes : dict (string * string)) :
  adds_only (overwrites_only (changed_in changes)) (apply_changes E changes).
Proof.
  unfold apply_changes. apply adds_only_for_each.
  intros [path [original modified]] Hin.
  destruct (decide (original ≠ modified)) as [Hne | _];
    [| apply adds_only_ret].
  apply adds_only_bind; [| intros _; apply adds_only_print; exact I].
  eapply adds_only_mono; [| apply adds_only_write_file_atomic].
  intros [line | p | p | src dst | src dst | src dst | p | p | m]; simpl;
    try done; intros ->; by exists original, modified.
Qed.

Lemma adds_only_restore_backups (E : Env) (J : Json) (manifest_path : string) :
  adds_only no_move_no_creation (restore_backups E J manifest_path).
Proof.
  unfold restore_backups. repeat adds_only_step.
  apply adds_only_for_each. intros [original backup] _.
  unfold restore_entry. repeat adds_only_step.
Qed.

Lemma adds_only_preview_changes (φ : event → Prop) (D : Difflib)
    (changes : dict (string * string)) :
  (∀ line, φ (Printed line)) → adds_only φ (preview_changes D changes).
Proof.
  intros Hφ. unfold preview_changes. apply adds_only_for_each.
  intros [path [original modified]] _.
  destruct (decide (original ≠ modified)); [| apply adds_only_ret].
  repeat (apply adds_only_bind; [by apply adds_only_print | intros _]).
  by apply adds_only_print.
Qed.

Lemma adds_only_print_summary (φ : event → Prop) (stats : Stats) :
  (∀ line, φ (Printed line)) → adds_only φ (print_summary stats).
Proof.
  intros Hφ. unfold print_summary.
  repeat (apply adds_only_bind; [by apply adds_only_print | intros _]).
  by apply adds_only_print.
Qed.

(** ** The scanning loop *)

Lemma elem_of_dict_set {V} (d : dict V) (k : string) (v : V)
    (x : string * V) :
  x ∈ dict_set d k v → x = (k, v) ∨ x ∈ d.
Proof.
  induction d as [| [k' v'] d IH]; simpl.
  - intros Hx. apply list_elem_of_singleton in Hx. by left.
  - destruct (decide (k' = k)) as [-> | Hne]; intros Hx;
      apply elem_of_cons in Hx as [-> | Hx].
    + by left.
    + right. by right.
    + right. by left.
    + destruct (IH Hx) as [-> | Hd]; [by left | right; by right].
Qed.

(** The pipeline never raises, prints at most its error line, and returns
    equal texts whenever it returns [touched = false]. *)
Lemma safe_process_file_shape (A : TreeAdapter)
    (path old new backup_dir : string) (w : world) :
  ∃ original modified touched tr,
    safe_process_file A path old new backup_dir w
    = (Ok (original, modified, touched), World (files w) (trace w ++ tr)) ∧
    Forall no_move_no_creation tr ∧
    (touched = false → original = modified).
Proof.
  assert (Hw : w = World (files w) (trace w ++ []))
    by (destruct w; simpl; by rewrite app_nil_r).
  unfold safe_process_file, try_except, bind, read_text, lift.
  destruct (files w !! path) as [raw |]; simpl.
  - destruct (parse_to_ast A (universal_newlines raw) path) as [tree | e];
      simpl.
    + destruct (decide (find_identifiers tree old = [])); simpl.
      * exists (universal_newlines raw), (universal_newlines raw), false, [].
        by rewrite <- Hw.
      * destruct (ast_to_source A _) as [modified | e]; simpl.
        -- exists (universal_newlines raw), modified, true, [].
           by rewrite <- Hw.
        -- eexists "", "", false, [_]. split_and!; [done | | done].
           by repeat constructor.
    + eexists "", "", false, [_]. split_and!; [done | | done].
      by repeat constructor.
  - eexists "", "", false, [_]. split_and!; [done | | done].
    by repeat constructor.
Qed.

Lemma backed_up_app (tr1 tr2 : list event) (path : string) :
  backed_up tr1 path ∨ backed_up tr2 path → backed_up (tr1 ++ tr2) path.
Proof.
  intros [[b Hb] | [b Hb]]; exists b; apply elem_of_app; auto.
Qed.

(** [backup_file] adds at most one event, a copy of [path], completed when a
    manifest comes back. *)
Lemma backup_file_trace (E : Env) (path backup_dir : string)
    (manifest : dict string) (w : world) :
  ∃ tr,
    trace (backup_file E path backup_dir manifest w).2 = trace w ++ tr ∧
    Forall no_move_no_creation tr ∧
    ∀ manifest', (backup_file E path backup_dir manifest w).1 = Ok manifest' →
                 backed_up tr path.
Proof.
  destruct (backup_file_probe E path backup_dir manifest w)
    as (k & _ & _ & ->).
  set (backup_path := backup_candidate backup_dir (os_path_basename path) k).
  unfold bind, shutil_copy2, ret.
  destruct (files w !! path) as [bytes |];
    [destruct (decide (path = backup_path)) |]; simpl.
  - exists []. by rewrite app_nil_r.
  - destruct (copy_fault E path backup_path) as [[[reached |] e] |]; simpl.
    + exists [CopyBroken path backup_path].
      split_and!; [done | by repeat constructor | discriminate].
    + exists []. by rewrite app_nil_r.
    + exists [Copied path backup_path].
      split_and!; [done | by repeat constructor |].
      intros _ _. exists backup_path. by apply list_elem_of_singleton.
  - exists []. by rewrite app_nil_r.
Qed.

(** One iteration of the scan adds neither a move nor a file of its own, and
    in an apply run every path that its [changes] marks as changed was marked
    so before or has just been backed up. *)
Lemma scan_file_trace (A : TreeAdapter) (E : Env) (args : Args)
    (backup_dir path : string) (st : dict (string * string) * dict string)
    (w : world) :
  ∃ tr,
    trace (scan_file A E args backup_dir st path w).2 = trace w ++ tr ∧
    Forall no_move_no_creation tr ∧
    ∀ changes' manifest',
      (scan_file A E args backup_dir st path w).1 = Ok (changes', manifest') →
      args_apply args = true →
      ∀ p, changed_in changes' p → changed_in st.1 p ∨ backed_up tr p.
Proof.
  destruct st as [changes manifest]. unfold scan_file, bind.
  destruct (safe_process_file_shape A path (args_old args) (args_new args)
              backup_dir w)
    as (original & modified & touched & tr & -> & Hquiet & Hsame).
  destruct (decide (original ≠ "")) as [Hnonempty | _]; simpl.
  - destruct (touched && args_apply args) eqn:Hflag; simpl.
    + destruct (backup_file_trace E path backup_dir manifest
                  (World (files w) (trace w ++ tr)))
        as (tr' & Htr' & Hquiet' & Hbacked).
      destruct (backup_file E path backup_dir manifest _)
        as [[manifest1 | e] w1]; simpl in *.
      * exists (tr ++ tr').
        split_and!; [by rewrite Htr', app_assoc | by apply Forall_app |].
        intros changes' manifest' [= <- <-] _ p (o & m & Hin & Hne).
        apply elem_of_dict_set in Hin as [[= -> -> ->] | Hin].
        -- right. apply backed_up_app. right. by eapply Hbacked.
        -- left. by exists o, m.
      * exists (tr ++ tr').
        split_and!; [by rewrite Htr', app_assoc | by apply Forall_app |
                     discriminate].
    + exists tr. split_and!; [done | done |].
      intros changes' manifest' [= <- <-] Happly p (o & m & Hin & Hne).
      apply elem_of_dict_set in Hin as [[= -> -> ->] | Hin].
      * rewrite Happly, andb_true_r in Hflag. by destruct Hne; apply Hsame.
      * left. by exists o, m.
  - exists tr. split_and!; [done | done |].
    intros changes' manifest' [= <- <-] _ p Hp. by left.
Qed.

Lemma scan_files_trace (A : TreeAdapter) (E : Env) (args : Args)
    (backup_dir : string) (py_files : list string)
    (st : dict (string * string) * dict string) (w : world) :
  ∃ tr,
    trace (scan_files A E args backup_dir py_files st w).2 = trace w ++ tr ∧
    Forall no_move_no_creation tr ∧
    ∀ changes' manifest',
      (scan_files A E args backup_dir py_files st w).1
      = Ok (changes', manifest') →
      args_apply args = true →
      ∀ p, changed_in changes' p → changed_in st.1 p ∨ backed_up tr p.
Proof.
  revert st w. induction py_files as [| path rest IH]; intros st w.
  - exists []. simpl. rewrite app_nil_r. split_and!; [done | done |].
    intros changes' manifest' [= ->] _ p Hp. by left.
  - rewrite scan_files_cons. unfold bind.
    destruct (scan_file_trace A E args backup_dir path st w)
      as (tr1 & Htr1 & Hquiet1 & Hchanged1).
    destruct (scan_file A E args backup_dir st path w) as [[st1 | e] w1];
      simpl in *.
    + destruct (IH st1 w1) as (tr2 & Htr2 & Hquiet2 & Hchanged2).
      exists (tr1 ++ tr2). rewrite Htr2, Htr1, app_assoc.
      split_and!; [done | by apply Forall_app |].
      intros changes' manifest' Hres Happly p Hp.
      destruct (Hchanged2 _ _ Hres Happly p Hp) as [Hp1 | Hb2].
      * destruct st1 as [changes1 manifest1].
        destruct (Hchanged1 _ _ eq_refl Happly p Hp1) as [Hp0 | Hb1].
        -- by left.
        -- right. apply backed_up_app. by left.
      * right. apply backed_up_app. by right.
    + exists tr1. split_and!; [done | done | discriminate].
Qed.

(** ** Order of backup and write in a run *)

Lemma backup_precedes_write_quiet (tr : list event) :
  Forall no_move_no_creation tr → backup_precedes_write tr.
Proof.
  intros Hall. rewrite Forall_lookup in Hall. split.
  - intros i tmp_path path Hi. by apply Hall in Hi.
  - intros i k tmp_path path _ Hk _. by apply Hall in Hk.
Qed.

Lemma backup_precedes_write_app (tr1 tr2 : list event) :
  Forall no_move_no_creation tr1 →
  Forall (overwrites_only (backed_up tr1)) tr2 →
  backup_precedes_write (tr1 ++ tr2).
Proof.
  intros Hall1 Hall2.
  rewrite Forall_lookup in Hall1. rewrite Forall_lookup in Hall2.
  assert (Hlate : ∀ i e path,
            tr2 !! (i - length tr1) = Some e →
            length tr1 ≤ i →
            overwrites_only (backed_up tr1) e →
            (overwrites_only (backed_up tr1) e → backed_up tr1 path) →
            ∃ j backup_path,
              j < i ∧ (tr1 ++ tr2) !! j = Some (Copied path backup_path)).
  { intros i e path _ Hlen He Hpath.
    destruct (Hpath He) as [b Hb].
    apply list_elem_of_lookup in Hb as [j Hj].
    exists j, b. split.
    - apply lookup_lt_Some in Hj. lia.
    - by apply lookup_app_l_Some. }
  split.
  - intros i tmp_path path Hi.
    apply lookup_app_Some in Hi as [Hi | [Hlen Hi]].
    + by apply Hall1 in Hi.
    + eapply Hlate; [exact Hi | done | by eapply Hall2 | done].
  - intros i k tmp_path path Hlt Hk Hi.
    destruct (decide (i < length tr1)) as [Hearly | Hlate'].
    + rewrite lookup_app_l in Hk by lia. by apply Hall1 in Hk.
    + rewrite lookup_app_r in Hi by lia.
      destruct Hi as [Hi | Hi];
        (eapply Hlate; [exact Hi | lia | by eapply Hall2 | done]).
Qed.

Lemma backup_precedes_write_then_quiet (tr tr' : list event) :
  backup_precedes_write tr → Forall no_overwrite tr' →
  backup_precedes_write (tr ++ tr').
Proof.
  intros [Hmove Hcopy] Hall. rewrite Forall_lookup in Hall. split.
  - intros i tmp_path path Hi.
    apply lookup_app_Some in Hi as [Hi | [Hlen Hi]].
    + destruct (Hmove _ _ _ Hi) as (j & b & Hj & Hb).
      exists j, b. split; [done | by apply lookup_app_l_Some].
    + by apply Hall in Hi.
  - intros i k tmp_path path Hlt Hk Hi.
    destruct (decide (i < length tr)) as [Hearly | Hlate].
    + rewrite !lookup_app_l in Hk, Hi by lia.
      destruct (Hcopy _ _ _ _ Hlt Hk Hi) as (j & b & Hj & Hb).
      exists j, b. split; [done | by apply lookup_app_l_Some].
    + rewrite lookup_app_r in Hi by lia.
      destruct Hi as [Hi | Hi]; by apply Hall in Hi.
Qed.

Lemma bind_print {A} (line : string) (k : unit → io A) (w : world) :
  bind (print line) k w
  = k tt (World (files w) (trace w ++ [Printed line])).
Proof. reflexivity. Qed.

Lemma adds_only_confirm (φ : event → Prop) (E : Env) (prompt : string) :
  (∀ line, φ (Printed line)) → adds_only φ (confirm E prompt).
Proof.
  intros Hφ. unfold confirm.
  apply adds_only_bind; [by apply adds_only_emit | intros _].
  apply adds_only_ret.
Qed.

(** The run of [main] on a namespace that asks for no undo, in the three ways
    it can go: no file is found; the backup directory cannot be made; the
    directory is made, the files are scanned and the rest follows. *)
Lemma main_with_scan (A : TreeAdapter) (D : Difflib) (J : Json) (E : Env)
    (args : Args) (w : world) :
  args_undo args = false →
  let py_files := collect_py_files E (args_path args) in
  let w1 := World (files w)
              (trace w ++ [Printed ("Scanning Python files in: "
                                    +:+ args_path args);
                           Printed ("Found " +:+ pretty (length py_files)
                                    +:+ " Python files")]) in
  main_with A D J E args w
  = if decide (py_files = []) then
      (Ok 0%Z, World (files w)
                 (trace w1 ++ [Printed "No Python files found"]))
    else
      match mkdtemp E "ast_rename_backup_" with
      | Raise e => (Raise e, w1)
      | Ok backup_dir =>
          (st <- scan_files A E args backup_dir py_files ([], []) ;;
           after_scan D J E args st)
            (World (files w) (trace w1 ++ [MadeDir backup_dir]))
      end.
Proof.
  intros Hundo py_files w1. unfold main_with. rewrite Hundo.
  rewrite !bind_print. fold py_files.
  assert (Hw1 : World (files (World (files w)
                                (trace w ++ [Printed ("Scanning Python files in: "
                                                      +:+ args_path args)])))
                  (trace (World (files w)
                            (trace w ++ [Printed ("Scanning Python files in: "
                                                  +:+ args_path args)]))
                   ++ [Printed ("Found " +:+ pretty (length py_files)
                                +:+ " Python files")]) = w1).
  { subst w1. simpl. by rewrite <- app_assoc. }
  rewrite Hw1.
  destruct (decide (py_files = [])) as [_ | _]; [by rewrite bind_print |].
  unfold tempfile_mkdtemp.
  destruct (mkdtemp E "ast_rename_backup_") as [backup_dir | e];
    reflexivity.
Qed.

Lemma adds_only_after_scan (D : Difflib) (J : Json) (E : Env) (args : Args)
    (changes : dict (string * string)) (manifest : dict string) :
  adds_only (overwrites_only
               (λ p, args_apply args = true ∧ changed_in changes p))
            (after_scan D J E args (changes, manifest)).
Proof.
  unfold after_scan.
  destruct (args_apply args) eqn:Happly; simpl.
  - repeat adds_only_step;
      try (apply adds_only_preview_changes; intros; exact I);
      try (apply adds_only_print_summary; intros; exact I);
      try (apply adds_only_confirm; intros; exact I).
    all: try (unfold record_manifest;
              destruct (dump_fault E _) as [[[written |] e] |];
              repeat adds_only_step).
    all: eapply adds_only_mono; [| apply adds_only_apply_changes].
    all: intros [line | p | p | src dst | src dst | src dst | p | p | m];
      simpl; auto.
  - repeat adds_only_step;
      try (apply adds_only_preview_changes; intros; exact I);
      try (apply adds_only_print_summary; intros; exact I).
Qed.

Lemma main_with_backup_precedes_write (A : TreeAdapter) (D : Difflib)
    (J : Json) (E : Env) (args : Args) (w : world) :
  ∃ tr, trace (main_with A D J E args w).2 = trace w ++ tr ∧
        backup_precedes_write tr.
Proof.
  destruct (args_undo args) eqn:Hundo.
  { unfold main_with. rewrite Hundo.
    destruct (adds_only_bind no_move_no_creation
                (restore_backups E J (args_manifest args)) (λ _, ret 0%Z)
                (adds_only_restore_backups E J (args_manifest args))
                (λ _, adds_only_ret _ _) w) as (tr & Htr & Hall).
    exists tr. split; [done | by apply backup_precedes_write_quiet]. }
  rewrite main_with_scan by done.
  set (p1 := Printed ("Scanning Python files in: " +:+ args_path args)).
  set (py_files := collect_py_files E (args_path args)).
  set (p2 := Printed ("Found " +:+ pretty (length py_files)
                      +:+ " Python files")).
  destruct (decide (py_files = [])) as [_ | _].
  { simpl. eexists [p1; p2; _].
    split; [by rewrite <- !app_assoc |].
    apply backup_precedes_write_quiet. by repeat constructor. }
  destruct (mkdtemp E "ast_rename_backup_") as [backup_dir | e].
  2: { exists [p1; p2]. split; [done |].
       apply backup_precedes_write_quiet. by repeat constructor. }
  match goal with
  | |- context [bind _ _ ?w0] => remember w0 as w2 eqn:Hw2
  end.
  assert (Htr0 : trace w2 = trace w ++ [p1; p2; MadeDir backup_dir])
    by (subst w2; simpl; by rewrite <- app_assoc).
  clear Hw2. unfold bind.
  destruct (scan_files_trace A E args backup_dir py_files ([], []) w2)
    as (tr1 & Htr1 & Hquiet1 & Hchanged).
  destruct (scan_files A E args backup_dir py_files ([], []) w2)
    as [[[changes manifest] | e] w3]; simpl in Htr1, Hchanged; cbv beta iota.
  2: { exists ([p1; p2; MadeDir backup_dir] ++ tr1).
       split; [simpl; by rewrite Htr1, Htr0, <- !app_assoc |].
       apply backup_precedes_write_quiet, Forall_app.
       split; [by repeat constructor | done]. }
  destruct (adds_only_after_scan D J E args changes manifest w3)
    as (tr2 & Htr2 & Hall2).
  exists (([p1; p2; MadeDir backup_dir] ++ tr1) ++ tr2).
  split; [by rewrite Htr2, Htr1, Htr0, <- !app_assoc |].
  apply backup_precedes_write_app.
  - apply Forall_app. split; [by repeat constructor | done].
  - eapply Forall_impl; [exact Hall2 |].
    assert (Hbacked : ∀ p, args_apply args = true ∧ changed_in changes p →
              backed_up ([p1; p2; MadeDir backup_dir] ++ tr1) p).
    { intros p [Happly Hp].
      destruct (Hchanged _ _ eq_refl Happly _ Hp) as [(o & m & Hin & _) | Hb].
      - by apply elem_of_nil in Hin.
      - apply (backed_up_app [p1; p2; MadeDir backup_dir] tr1). by right. }
    intros [line | p | p | src dst | src dst | src dst | p | p | m]; simpl;
      auto.
Qed.

Lemma main_backup_precedes_write (A : TreeAdapter) (D : Difflib) (J : Json)
    (E : Env) (args : Args) (w : world) :
  ∃ tr, trace (main A D J E args w).2 = trace w ++ tr ∧
        backup_precedes_write tr.
Proof.
  unfold main. destruct (parse_args A args) as [args' | message].
  - apply main_with_backup_precedes_write.
  - exists [Usage message]. split; [done |].
    apply backup_precedes_write_quiet. by repeat constructor.
Qed.

(** C3, as the code has it. In every run, each atomic write of a file comes
    after a backup copy of that file made earlier in the same run: whatever
    the run adds to the record of effects, a move onto a path is preceded in
    it by a copy of that path; and where the move is made by copying (the
    rename was refused), the copy of the temporary file onto a path, completed
    or broken, is preceded by a copy of that path as well. *)
Theorem overwritten_file_was_backed_up_before (A : TreeAdapter) (D : Difflib)
    (J : Json) (E : Env) (args : Args) (w : world) :
  ∃ tr, trace (run A D J E args w).2 = trace w ++ tr ∧
        (∀ i tmp_path path,
          tr !! i = Some (Moved tmp_path path) →
          ∃ j backup_path,
            j < i ∧ tr !! j = Some (Copied path backup_path)) ∧
        (∀ i k tmp_path path,
          k < i → tr !! k = Some (Created tmp_path) →
          tr !! i = Some (Copied tmp_path path) ∨
          tr !! i = Some (CopyBroken tmp_path path) →
          ∃ j backup_path,
            j < i ∧ tr !! j = Some (Copied path backup_path)).
Proof.
  unfold run, try_except.
  destruct (main_backup_precedes_write A D J E args w) as (tr & Htr & Hbefore).
  destruct (main A D J E args w) as [[code | e] w1]; simpl in *.
  - by exists tr.
  - eexists (tr ++ [_]). split; [by rewrite Htr, app_assoc |].
    apply backup_precedes_write_then_quiet; [done | by repeat constructor].
Qed.

Lemma overwritten_file_was_backed_up_before_witness :
  let w := Fixture.disk [("./t.py", Fixture.assign_x_src)] in
  let final := run Fixture.adapter Fixture.difflib (Fixture.json [])
                 (Fixture.env ["t.py"] true)
                 (Fixture.args "x" "z" false true) w in
  ∃ tr, trace final.2 = trace w ++ tr ∧
        (∀ i tmp_path path,
          tr !! i = Some (Moved tmp_path path) →
          ∃ j backup_path,
            j < i ∧ tr !! j = Some (Copied path backup_path)) ∧
        (∀ i k tmp_path path,
          k < i → tr !! k = Some (Created tmp_path) →
          tr !! i = Some (Copied tmp_path path) ∨
          tr !! i = Some (CopyBroken tmp_path path) →
          ∃ j backup_path,
            j < i ∧ tr !! j = Some (Copied path backup_path)).
Proof.
  intros w final.
  exact (overwritten_file_was_backed_up_before Fixture.adapter Fixture.difflib
           (Fixture.json []) (Fixture.env ["t.py"] true)
           (Fixture.args "x" "z" false true) w).
Defined.

(** The record of that run: the copy during the scan, the prompt, then the
    temporary file and the move. *)
Example apply_run_record :
  trace (run Fixture.adapter Fixture.difflib (Fixture.json [])
           (Fixture.env ["t.py"] true) (Fixture.args "x" "z" false true)
           (Fixture.disk [("./t.py", Fixture.assign_x_src)])).2
  = [Printed "Scanning Python files in: .";
     Printed "Found 1 Python files";
     MadeDir "/tmp/ast_rename_backup_k3x9w_p1";
     Copied "./t.py" "/tmp/ast_rename_backup_k3x9w_p1/t.py.bak";
     Printed "Apply changes to files? (y/n): ";
     Created "./tmpqz4m81ab"; Written "./tmpqz4m81ab";
     Moved "./tmpqz4m81ab" "./t.py";
     Printed "Modified: ./t.py";
     Written ".rename_manifest.json";
     Printed (nl +:+ "Backup manifest saved: .rename_manifest.json");
     Printed "Use --undo to restore original files";
     Printed (nl +:+ "Completed: 1 files modified")].
Proof. vm_compute. reflexivity. Qed.

(** C3, as stated, fails when the operator declines the confirmation: the
    scan of an apply run has already copied the touched file to the backup
    directory, the run ends with exit code 1, and the file is not overwritten:
    a backup exists for a file that the pass does not overwrite. *)
Lemma backup_without_overwrite_when_declined :
  let w := Fixture.disk [("./t.py", Fixture.assign_x_src)] in
  let final := run Fixture.adapter Fixture.difflib (Fixture.json [])
                 (Fixture.env ["t.py"] false)
                 (Fixture.args "x" "z" false true) w in
  final.1 = Ok 1%Z ∧
  trace final.2
  = [Printed "Scanning Python files in: .";
     Printed "Found 1 Python files";
     MadeDir "/tmp/ast_rename_backup_k3x9w_p1";
     Copied "./t.py" "/tmp/ast_rename_backup_k3x9w_p1/t.py.bak";
     Printed "Apply changes to files? (y/n): ";
     Printed "Aborted"] ∧
  backed_up (trace final.2) "./t.py" ∧
  (∀ tmp_path, Moved tmp_path "./t.py" ∉ trace final.2) ∧
  files final.2 !! "/tmp/ast_rename_backup_k3x9w_p1/t.py.bak"
  = Some Fixture.assign_x_src ∧
  files final.2 !! "./t.py" = Some Fixture.assign_x_src.
Proof.
  intros w final.
  assert (Htrace : trace final.2
    = [Printed "Scanning Python files in: .";
       Printed "Found 1 Python files";
       MadeDir "/tmp/ast_rename_backup_k3x9w_p1";
       Copied "./t.py" "/tmp/ast_rename_backup_k3x9w_p1/t.py.bak";
       Printed "Apply changes to files? (y/n): ";
       Printed "Aborted"]) by (vm_compute; reflexivity).
  split_and!; [vm_compute; reflexivity | exact Htrace | | |
               vm_compute; reflexivity | vm_compute; reflexivity].
  - exists "/tmp/ast_rename_backup_k3x9w_p1/t.py.bak". rewrite Htrace.
    do 3 right. left.
  - intros tmp_path Hin. rewrite Htrace in Hin.
    repeat (apply elem_of_cons in Hin as [Hin | Hin]; [discriminate Hin |]).
    by apply elem_of_nil in Hin.
Qed.

(** * Further properties of the code *)

(** ** The two visitors *)

Section VisitorFacts.
Variables old_name new_name : string.

Lemma rename_ident_idemp (ident : string) :
  rename_ident old_name new_name (rename_ident old_name new_name ident)
  = rename_ident old_name new_name ident.
Proof.
  unfold rename_ident.
  destruct (decide (ident = old_name)) as [-> | Hne].
  - by destruct (decide (new_name = old_name)).
  - by rewrite decide_False.
Qed.

Lemma rename_idemp_both :
  (∀ n, Renamer.visit old_name new_name (Renamer.visit old_name new_name n)
        = Renamer.visit old_name new_name n) ∧
  (∀ f, Renamer.visit_field old_name new_name
          (Renamer.visit_field old_name new_name f)
        = Renamer.visit_field old_name new_name f).
Proof.
  set (r := Renamer.visit old_name new_name).
  set (rf := Renamer.visit_field old_name new_name).
  set (Q := λ f : field,
         rf (rf f) = rf f ∧
         match f with FNode n => r (r n) = r n | _ => True end).
  cut ((∀ n, r (r n) = r n) ∧ (∀ f, Q f)).
  { intros [Hn Hf]. split; [exact Hn | intros f; apply Hf]. }
  apply node_field_mutind; subst Q r rf; simpl; intros;
    rewrite ?rename_ident_idemp; try done.
  1-3,5: f_equal; rewrite List.map_map; apply map_ext_Forall_eq;
         (eapply Forall_impl; [eassumption |]); intros f [Hf _]; exact Hf.
  - congruence.
  - split; congruence.
  - split; [| exact I]. f_equal. rewrite List.map_map.
    apply map_ext_Forall_eq. eapply Forall_impl; [eassumption |].
    intros [n | items' | r] [_ Hn]; simpl in *; congruence.
Qed.

Lemma rename_ident_absent (ident : string) :
  old_name ≠ ident → rename_ident old_name new_name ident = ident.
Proof. intros Hne. unfold rename_ident. by rewrite decide_False. Qed.

Lemma map_id_Forall {A} (f : A → A) (l : list A) :
  Forall (λ x, f x = x) l → map f l = l.
Proof. induction 1; simpl; congruence. Qed.

Lemma not_in_flat_map {A} (g : A → list string) (l : list A) :
  old_name ∉ flat_map g l → Forall (λ x, old_name ∉ g x) l.
Proof.
  induction l as [| x l IH]; simpl; [constructor |].
  intros [Hx Hl]%not_elem_of_app. constructor; auto.
Qed.

Lemma rename_absent_both :
  (∀ n, old_name ∉ identifiers n →
        Renamer.visit old_name new_name n = n) ∧
  (∀ f, old_name ∉ identifiers_field f →
        Renamer.visit_field old_name new_name f = f).
Proof.
  set (r := Renamer.visit old_name new_name).
  set (rf := Renamer.visit_field old_name new_name).
  set (Q := λ f : field,
         (old_name ∉ identifiers_field f → rf f = f) ∧
         match f with
         | FNode n => old_name ∉ identifiers n → r n = n
         | _ => True
         end).
  cut ((∀ n, old_name ∉ identifiers n → r n = n) ∧ (∀ f, Q f)).
  { intros [Hn Hf]. split; [exact Hn | intros f; apply Hf]. }
  assert (Hfields : ∀ fs, Forall Q fs →
            old_name ∉ flat_map identifiers_field fs → map rf fs = fs).
  { intros fs HQ Hnot. apply map_id_Forall.
    apply not_in_flat_map in Hnot.
    eapply Forall_impl; [apply Forall_and; split; [exact HQ | exact Hnot] |].
    intros f [[Hf _] Hn]. by apply Hf. }
  apply node_field_mutind; subst Q r rf; simpl; intros;
    rewrite ?not_elem_of_cons in *; try done.
  - destruct H as [Hne _]. by rewrite rename_ident_absent.
  - destruct H0 as [Hne Hrest].
    by rewrite rename_ident_absent, Hfields.
  - destruct H0 as [Hne Hrest].
    by rewrite rename_ident_absent, Hfields.
  - destruct H0 as [Hne Hrest].
    by rewrite rename_ident_absent, Hfields.
  - destruct H0 as [Hne Hrest].
    by rewrite rename_ident_absent, H.
  - destruct H as [Hne _]. by rewrite rename_ident_absent.
  - destruct H0 as [Hne _]. by rewrite rename_ident_absent.
  - by rewrite Hfields.
  - split; [intros Hn; by rewrite H | done].
  - split; [| exact I]. intros Hnot. f_equal. apply map_id_Forall.
    apply not_in_flat_map in Hnot.
    eapply Forall_impl; [apply Forall_and; split; [exact H | exact Hnot] |].
    intros [n | items' | r] [[_ Hf] Hn]; simpl in *; [| done | done].
    by rewrite Hf.
Qed.
End VisitorFacts.

Section OtherSpelling.
Variables old_name new_name other : string.
Hypothesis other_not_old : other ≠ old_name.
Hypothesis other_not_new : other ≠ new_name.

Lemma report_rename_other (p : pos) (ident kind : string) :
  report other p (rename_ident old_name new_name ident) kind
  = report other p ident kind.
Proof.
  unfold report, rename_ident.
  destruct (decide (ident = old_name)) as [-> | Hne]; [| done].
  rewrite !decide_False; congruence.
Qed.

Lemma find_other_rename_both :
  (∀ n, IdentifierFinder.visit other (Renamer.visit old_name new_name n)
        = IdentifierFinder.visit other n) ∧
  (∀ f, IdentifierFinder.visit_field other
          (Renamer.visit_field old_name new_name f)
        = IdentifierFinder.visit_field other f).
Proof.
  set (r := Renamer.visit old_name new_name).
  set (rf := Renamer.visit_field old_name new_name).
  set (v := IdentifierFinder.visit other).
  set (vf := IdentifierFinder.visit_field other).
  set (Q := λ f : field,
         vf (rf f) = vf f ∧
         match f with FNode n => v (r n) = v n | _ => True end).
  cut ((∀ n, v (r n) = v n) ∧ (∀ f, Q f)).
  { intros [Hn Hf]. split; [exact Hn | intros f; apply Hf]. }
  apply node_field_mutind; subst Q r rf v vf; simpl; intros;
    rewrite ?report_rename_other; try done.
  1-3,5: try (apply (f_equal (app _))); apply flat_map_map_Forall_eq;
         (eapply Forall_impl; [eassumption |]); intros f [Hf _]; exact Hf.
  - by rewrite H.
  - split; [| exact I]. apply flat_map_map_Forall_eq.
    eapply Forall_impl; [eassumption |].
    intros [n | items' | r] [_ Hn]; simpl in *; congruence.
Qed.
End OtherSpelling.

(** X1. The Locator reports one occurrence for each identifier-bearing field
    of the tree that equals the old spelling, and nothing else: no node is
    reported twice and none is missed. *)
Theorem find_identifiers_counts_matches (tree : node) (old_name : string) :
  length (find_identifiers tree old_name)
  = length (filter (λ ident, ident = old_name) (identifiers tree)).
Proof. apply find_count_both. Qed.

(** X2. When the Locator finds no occurrence, the Rewriter returns the tree
    as it was: the pipeline loses nothing by returning the original text
    without rewriting. *)
Theorem rename_without_occurrence_is_identity (tree : node)
    (old_name new_name : string) :
  find_identifiers tree old_name = [] →
  apply_rename_to_tree tree (create_renamer old_name new_name) = tree.
Proof.
  intros Hfind. unfold apply_rename_to_tree, create_renamer.
  apply rename_absent_both.
  by apply (proj1 (find_nil_both old_name new_name)).
Qed.

Lemma rename_without_occurrence_is_identity_witness :
  find_identifiers Fixture.assign_msg "x" = [] ∧
  apply_rename_to_tree Fixture.assign_msg (create_renamer "x" "z")
  = Fixture.assign_msg.
Proof.
  assert (Hfind : find_identifiers Fixture.assign_msg "x" = [])
    by reflexivity.
  split; [exact Hfind |].
  exact (rename_without_occurrence_is_identity Fixture.assign_msg "x" "z"
           Hfind).
Defined.

(** X3. The Rewriter is idempotent on trees: applying the same renamer to its
    own result changes nothing more, whatever the two spellings are. *)
Theorem rename_twice_is_rename_once (tree : node)
    (old_name new_name : string) :
  let renamer := create_renamer old_name new_name in
  apply_rename_to_tree (apply_rename_to_tree tree renamer) renamer
  = apply_rename_to_tree tree renamer.
Proof. unfold apply_rename_to_tree, create_renamer. apply rename_idemp_both. Qed.

(** X4. A rename pass leaves the occurrences of every third spelling where
    they were: for a spelling that is neither the old nor the new one, the
    Locator reports the same occurrences on the rewritten tree as on the
    original one. *)
Theorem rename_keeps_other_occurrences (tree : node)
    (old_name new_name other : string) :
  other ≠ old_name → other ≠ new_name →
  find_identifiers
    (apply_rename_to_tree tree (create_renamer old_name new_name)) other
  = find_identifiers tree other.
Proof.
  intros Hold Hnew. unfold find_identifiers, apply_rename_to_tree,
    create_renamer.
  by apply find_other_rename_both.
Qed.

Lemma rename_keeps_other_occurrences_witness :
  "a" ≠ "x" ∧ "a" ≠ "y" ∧
  find_identifiers
    (apply_rename_to_tree Fixture.annotated_def (create_renamer "x" "y")) "a"
  = find_identifiers Fixture.annotated_def "a".
Proof.
  assert (Hold : "a" ≠ "x") by discriminate.
  assert (Hnew : "a" ≠ "y") by discriminate.
  split_and!; [exact Hold | exact Hnew |].
  exact (rename_keeps_other_occurrences Fixture.annotated_def "x" "y" "a"
           Hold Hnew).
Defined.

(** ** Statistics *)

Lemma length_filter_split {A} (P : A → Prop) `{∀ x, Decision (P x)}
    (l : list A) :
  length (filter P l) + length (filter (λ x, ¬ P x) l) = length l.
Proof.
  induction l as [| x l IH]; [done |].
  rewrite !filter_cons. destruct (decide (P x)) as [HP | HP].
  - rewrite decide_False by tauto. simpl. lia.
  - rewrite decide_True by done. simpl. lia.
Qed.

(** X5. In the statistics of any set of change records, the modified and the
    unchanged files add up to the scanned ones; the unchanged files are those
    whose two texts are equal. *)
Theorem summarize_stats_partition (changes : dict (string * string)) :
  let stats := summarize_stats changes in
  files_modified stats + files_unchanged stats = files_scanned stats ∧
  files_unchanged stats
  = length (filter (λ kv, ¬ fst (snd kv) ≠ snd (snd kv)) changes).
Proof.
  simpl.
  pose proof (length_filter_split (λ kv : string * (string * string),
                kv.2.1 ≠ kv.2.2) changes) as Hsplit.
  unfold dict in *. cbn beta in Hsplit. split; lia.
Qed.

(** ** Discovery *)

Lemma endswith_spec (suffix s : string) :
  endswith suffix s = true ↔ ∃ pre, s = pre +:+ suffix.
Proof.
  induction s as [| c s IH]; simpl.
  - rewrite orb_false_r, bool_decide_eq_true. split.
    + intros <-. by exists "".
    + intros [[| c pre] Hpre]; [done | discriminate Hpre].
  - rewrite orb_true_iff, bool_decide_eq_true, IH. split.
    + intros [<- | [pre ->]]; [by exists "" | by exists (String c pre)].
    + intros [[| c' pre] Hpre]; [by left |].
      rewrite append_cons in Hpre. injection Hpre as -> ->. right. eauto.
Qed.

Lemma os_path_join_suffix (a b : string) : ∃ pre, os_path_join a b = pre +:+ b.
Proof.
  unfold os_path_join. destruct (startswith_sep b); [by exists "" |].
  destruct (bool_decide (a = "") || endswith_sep a).
  - by exists a.
  - exists (a +:+ "/"). by rewrite append_assoc.
Qed.

(** X6. [collect_py_files] returns exactly the joins of a walked directory
    with one of its file names that ends in [.py], and every path it returns
    ends in [.py] itself. *)
Theorem collect_py_files_only_py (E : Env) (root path : string) :
  (path ∈ collect_py_files E root ↔
   ∃ dirpath filenames fname,
     (dirpath, filenames) ∈ os_walk E root ∧ fname ∈ filenames ∧
     endswith ".py" fname = true ∧ path = os_path_join dirpath fname) ∧
  (path ∈ collect_py_files E root → endswith ".py" path = true).
Proof.
  assert (Hiff : path ∈ collect_py_files E root ↔
            ∃ dirpath filenames fname,
              (dirpath, filenames) ∈ os_walk E root ∧ fname ∈ filenames ∧
              endswith ".py" fname = true ∧
              path = os_path_join dirpath fname).
  { unfold collect_py_files. rewrite list_elem_of_In, in_flat_map. split.
    - intros ([dirpath filenames] & Hwalk & Hin).
      apply in_map_iff in Hin as (fname & <- & Hfname).
      apply filter_In in Hfname as [Hfname Hpy].
      exists dirpath, filenames, fname.
      by rewrite !list_elem_of_In.
    - intros (dirpath & filenames & fname & Hwalk & Hfname & Hpy & ->).
      exists (dirpath, filenames). rewrite list_elem_of_In in Hwalk.
      split; [done |]. apply in_map, filter_In.
      by rewrite <- list_elem_of_In. }
  split; [exact Hiff |].
  intros (dirpath & filenames & fname & _ & _ & Hpy & ->)%Hiff.
  apply endswith_spec in Hpy as [pre ->].
  destruct (os_path_join_suffix dirpath (pre +:+ ".py")) as [pre' ->].
  apply endswith_spec. exists (pre' +:+ pre). by rewrite append_assoc.
Qed.

Lemma collect_py_files_only_py_witness :
  let E := Fixture.env ["t.py"; "notes.txt"; "u.py"] true in
  "./u.py" ∈ collect_py_files E "." ∧ endswith ".py" "./u.py" = true.
Proof.
  intros E.
  assert (Hin : "./u.py" ∈ collect_py_files E ".")
    by (vm_compute; do 1 right; left).
  split; [exact Hin |].
  exact (proj2 (collect_py_files_only_py E "." "./u.py") Hin).
Defined.

(** What the walk of that directory gives: the text file is left out. *)
Example collect_py_files_skips_other_files :
  collect_py_files (Fixture.env ["t.py"; "notes.txt"; "u.py"] true) "."
  = ["./t.py"; "./u.py"].
Proof. reflexivity. Qed.

(** ** The File Pipeline never raises and never writes *)

Lemma world_eta (w : world) : World (files w) (trace w ++ []) = w.
Proof. destruct w; simpl. by rewrite app_nil_r. Qed.

Lemma safe_process_file_cases (A : TreeAdapter)
    (path old new backup_dir : string) (w : world) :
  ∃ original modified touched lines,
    safe_process_file A path old new backup_dir w
    = (Ok (original, modified, touched),
       World (files w) (trace w ++ map Printed lines)) ∧
    length lines ≤ 1 ∧
    (touched = false → original = modified) ∧
    (original ≠ "" →
     ∃ raw, files w !! path = Some raw ∧ original = universal_newlines raw).
Proof.
  unfold safe_process_file, try_except, bind, read_text, lift.
  destruct (files w !! path) as [raw |]; simpl.
  - destruct (parse_to_ast A (universal_newlines raw) path) as [tree | e];
      simpl.
    + destruct (decide (find_identifiers tree old = [])); simpl.
      * exists (universal_newlines raw), (universal_newlines raw), false, [].
        simpl. rewrite world_eta.
        split_and!; [done | lia | done | by eauto].
      * destruct (ast_to_source A _) as [modified | e]; simpl.
        -- exists (universal_newlines raw), modified, true, []. simpl.
           rewrite world_eta.
           split_and!; [done | lia | done | by eauto].
        -- eexists "", "", false, [_]. simpl.
           split_and!; [done | lia | done | done].
    + eexists "", "", false, [_]. simpl.
      split_and!; [done | lia | done | done].
  - eexists "", "", false, [_]. simpl.
    split_and!; [done | lia | done | done].
Qed.

(** X7. Whatever the file, the adapter and the spellings, the File Pipeline
    returns a triple and does not raise; it changes no file and prints at most
    one line; when it reports [touched = false] the two texts are equal, and
    an original text that is not empty is the content of the file as a text
    file is read: with each line ending [\r\n] or [\r] turned into [\n]. *)
Theorem safe_process_file_never_raises_nor_writes (A : TreeAdapter)
    (path old new backup_dir : string) (w : world) :
  ∃ original modified touched lines,
    safe_process_file A path old new backup_dir w
    = (Ok (original, modified, touched),
       World (files w) (trace w ++ map Printed lines)) ∧
    length lines ≤ 1 ∧
    (touched = false → original = modified) ∧
    (original ≠ "" →
     ∃ raw, files w !! path = Some raw ∧ original = universal_newlines raw).
Proof. apply safe_process_file_cases. Qed.

(** On a file with the line ending [\r\n], the text that the pipeline returns
    as original is not the content of the file. *)
Example safe_process_file_reads_universal_newlines :
  let raw := "z = 1" +:+ String CR nl in
  (safe_process_file Fixture.adapter "./t.py" "x" "y" "/tmp/b"
     (Fixture.disk [("./t.py", raw)])).1
  = Ok ("z = 1" +:+ nl, "z = 1" +:+ nl, false).
Proof. vm_compute. reflexivity. Qed.

(** ** Backups *)

Lemma backup_file_ok (E : Env) (path backup_dir : string)
    (manifest : dict string) (w : world) (bytes : string) :
  files w !! path = Some bytes →
  (∀ dst, copy_fault E path dst = None) →
  ∃ backup_path,
    files w !! backup_path = None ∧
    backup_file E path backup_dir manifest w
    = (Ok (dict_set manifest path backup_path),
       World (<[backup_path := bytes]> (files w))
             (trace w ++ [Copied path backup_path])).
Proof.
  intros Hpath Hok.
  destruct (backup_file_probe E path backup_dir manifest w)
    as (k & _ & Hfree & ->).
  eexists. split; [exact Hfree |]. unfold bind.
  rewrite (shutil_copy2_done E _ _ bytes); [done | done | congruence | done].
Qed.

(** Whatever the copy meets, [backup_file] leaves every file that exists as
    it is. *)
Lemma backup_file_keeps (E : Env) (path backup_dir : string)
    (manifest : dict string) (w : world) :
  keeps_files w (backup_file E path backup_dir manifest w).2.
Proof.
  destruct (backup_file_probe E path backup_dir manifest w)
    as (k & _ & Hfree & ->).
  set (backup_path := backup_candidate backup_dir (os_path_basename path) k)
    in *.
  unfold bind, shutil_copy2. intros p v Hp.
  destruct (files w !! path) as [bytes |]; [| exact Hp].
  destruct (decide (path = backup_path)); [exact Hp |].
  destruct (copy_fault E path backup_path) as [[[reached |] e] |]; simpl;
    try exact Hp; (rewrite lookup_insert_ne; [done | congruence]).
Qed.

(** X8. [backup_file] on a path that does not exist raises the error of the
    copy and leaves the files, the record and so the manifest of its caller
    as they were. *)
Theorem backup_file_missing_source (E : Env) (path backup_dir : string)
    (manifest : dict string) (w : world) :
  files w !! path = None →
  backup_file E path backup_dir manifest w
  = (Raise (FileNotFoundError path), w).
Proof.
  intros Hnone.
  destruct (backup_file_probe E path backup_dir manifest w)
    as (k & _ & _ & ->).
  unfold bind, shutil_copy2. by rewrite Hnone.
Qed.

Lemma backup_file_missing_source_witness :
  let E := Fixture.env ["t.py"] true in
  let w := Fixture.disk [("./t.py", Fixture.assign_x_src)] in
  files w !! "./gone.py" = None ∧
  backup_file E "./gone.py" "/tmp/b" [] w
  = (Raise (FileNotFoundError "./gone.py"), w).
Proof.
  intros E w.
  assert (Hnone : files w !! "./gone.py" = None) by (vm_compute; reflexivity).
  split; [exact Hnone |].
  exact (backup_file_missing_source E "./gone.py" "/tmp/b" [] w Hnone).
Defined.

(** X9. A backup never changes or removes a file that exists: after
    [backup_file] every file, the backed-up one included, holds what it held,
    whatever the copy meets; and when the copy meets no error, the only event
    added is the copy, to another path, which then holds the bytes. *)
Theorem backup_file_keeps_existing_files (E : Env) (path backup_dir : string)
    (manifest : dict string) (w : world) (bytes : string) :
  files w !! path = Some bytes →
  let w' := (backup_file E path backup_dir manifest w).2 in
  keeps_files w w' ∧
  ((∀ dst, copy_fault E path dst = None) →
   ∃ backup_path, files w' !! backup_path = Some bytes ∧
                  backup_path ≠ path ∧
                  trace w' = trace w ++ [Copied path backup_path]).
Proof.
  intros Hpath w'. subst w'. split; [apply backup_file_keeps |].
  intros Hok.
  destruct (backup_file_ok E path backup_dir manifest w bytes Hpath Hok)
    as (backup_path & Hfree & ->). simpl.
  exists backup_path. rewrite lookup_insert_eq.
  split_and!; [done | congruence | done].
Qed.

Lemma backup_file_keeps_existing_files_witness :
  let E := Fixture.env ["t.py"] true in
  let w := Fixture.disk [("./t.py", Fixture.assign_x_src);
                         ("/tmp/b/t.py.bak", "y = 2")] in
  let w' := (backup_file E "./t.py" "/tmp/b" [] w).2 in
  files w !! "./t.py" = Some Fixture.assign_x_src ∧
  keeps_files w w' ∧
  ∃ backup_path, files w' !! backup_path = Some Fixture.assign_x_src ∧
                 backup_path ≠ "./t.py" ∧
                 trace w' = trace w ++ [Copied "./t.py" backup_path].
Proof.
  intros E w w'.
  assert (Hpath : files w !! "./t.py" = Some Fixture.assign_x_src)
    by (vm_compute; reflexivity).
  split; [exact Hpath |].
  destruct (backup_file_keeps_existing_files E "./t.py" "/tmp/b" [] w
              Fixture.assign_x_src Hpath) as [Hkeeps Hcopy].
  split; [exact Hkeeps |]. apply Hcopy. reflexivity.
Defined.

(** X10. Backing the same file up twice, with copies that meet no error,
    gives two different backup files, both with the bytes of the file; the
    manifest keeps one entry for the path, which names the second backup. *)
Theorem backup_file_twice_distinct (E : Env) (path backup_dir : string)
    (manifest : dict string) (w : world) (bytes : string) :
  files w !! path = Some bytes →
  (∀ dst, copy_fault E path dst = None) →
  ∃ first second w2,
    (manifest1 <- backup_file E path backup_dir manifest ;;
     backup_file E path backup_dir manifest1) w
    = (Ok (dict_set (dict_set manifest path first) path second), w2) ∧
    first ≠ second ∧
    files w2 !! first = Some bytes ∧
    files w2 !! second = Some bytes ∧
    files w2 !! path = Some bytes ∧
    dict_get (dict_set (dict_set manifest path first) path second) path
    = Some second.
Proof.
  intros Hpath Hok. unfold bind.
  destruct (backup_file_ok E path backup_dir manifest w bytes Hpath Hok)
    as (first & Hfree1 & ->).
  set (w1 := World (<[first := bytes]> (files w))
                   (trace w ++ [Copied path first])).
  assert (Hpath1 : files w1 !! path = Some bytes).
  { simpl. rewrite lookup_insert_ne; [done | congruence]. }
  destruct (backup_file_ok E path backup_dir (dict_set manifest path first)
              w1 bytes Hpath1 Hok) as (second & Hfree2 & ->).
  simpl in Hfree2.
  assert (Hne : first ≠ second).
  { intros <-. by rewrite lookup_insert_eq in Hfree2. }
  eexists first, second, _. split_and!; [done | done | | | | ];
    subst w1; simpl.
  - by rewrite lookup_insert_ne, lookup_insert_eq by congruence.
  - by rewrite lookup_insert_eq.
  - simpl in Hpath1. rewrite lookup_insert_ne; [done | congruence].
  - apply dict_get_set.
Qed.

Lemma backup_file_twice_distinct_witness :
  let E := Fixture.env ["t.py"] true in
  let w := Fixture.disk [("./t.py", Fixture.assign_x_src)] in
  files w !! "./t.py" = Some Fixture.assign_x_src ∧
  (∀ dst, copy_fault E "./t.py" dst = None) ∧
  ∃ first second w2,
    (manifest1 <- backup_file E "./t.py" "/tmp/b" [] ;;
     backup_file E "./t.py" "/tmp/b" manifest1) w
    = (Ok (dict_set (dict_set [] "./t.py" first) "./t.py" second), w2) ∧
    first ≠ second ∧
    files w2 !! first = Some Fixture.assign_x_src ∧
    files w2 !! second = Some Fixture.assign_x_src ∧
    files w2 !! "./t.py" = Some Fixture.assign_x_src ∧
    dict_get (dict_set (dict_set [] "./t.py" first) "./t.py" second) "./t.py"
    = Some second.
Proof.
  intros E w.
  assert (Hpath : files w !! "./t.py" = Some Fixture.assign_x_src)
    by (vm_compute; reflexivity).
  assert (Hok : ∀ dst, copy_fault E "./t.py" dst = None) by reflexivity.
  split_and!; [exact Hpath | exact Hok |].
  exact (backup_file_twice_distinct E "./t.py" "/tmp/b" [] w
           Fixture.assign_x_src Hpath Hok).
Defined.

(** ** The temporary file of an atomic write *)

Lemma mkstemp_inner_ok (dir : string) (names : list string) (w : world) :
  (∃ name, name ∈ names ∧
           files w !! os_path_join dir ("tmp" +:+ name) = None) →
  ∃ tmp_path,
    files w !! tmp_path = None ∧
    mkstemp_inner dir names w
    = (Ok tmp_path,
       World (<[tmp_path := ""]> (files w)) (trace w ++ [Created tmp_path])).
Proof.
  intros (name & Hin & Hfree).
  induction names as [| name' names IH]; [by apply elem_of_nil in Hin |].
  simpl. unfold bind, os_path_exists.
  destruct (files w !! os_path_join dir ("tmp" +:+ name')) eqn:Hname'.
  - rewrite bool_decide_eq_true_2 by eauto.
    apply IH. apply elem_of_cons in Hin as [-> | Hin]; [congruence | done].
  - rewrite bool_decide_eq_false_2 by (by apply is_Some_None).
    eexists. split; [exact Hname' | reflexivity].
Qed.

Lemma mkstemp_inner_exhausted (dir : string) (names : list string)
    (w : world) :
  (∀ name, name ∈ names →
           is_Some (files w !! os_path_join dir ("tmp" +:+ name))) →
  mkstemp_inner dir names w
  = (Raise (Exception "[Errno 17] No usable temporary file name found"), w).
Proof.
  induction names as [| name names IH]; intros Htaken; [reflexivity |].
  simpl. unfold bind, os_path_exists.
  rewrite bool_decide_eq_true_2 by (apply Htaken; by left).
  apply IH. intros name' Hin. apply Htaken. by right.
Qed.

Lemma write_file_atomic_succeeds (E : Env) (path content : string)
    (w : world) :
  write_fault E path = NoFault →
  (∃ name, name ∈ tmp_names E ∧
     files w !! os_path_join
                  (if decide (os_path_dirname path = "") then "."
                   else os_path_dirname path) ("tmp" +:+ name) = None) →
  ∃ tmp_path,
    write_file_atomic E path content w
    = (Ok tt,
       World (<[path := content]> (files w))
             (trace w ++ [Created tmp_path; Written tmp_path;
                          Moved tmp_path path])).
Proof.
  intros Hfault Hname.
  destruct (mkstemp_inner_ok _ (tmp_names E) w Hname)
    as (tmp_path & Hfree & Hmk).
  exists tmp_path. unfold write_file_atomic, bind, NamedTemporaryFile.
  rewrite Hfault, Hmk. simpl.
  unfold bind, write_text, shutil_move, try_except, os_rename. simpl.
  rewrite lookup_insert_eq. simpl.
  by rewrite insert_insert_eq, delete_insert_eq, delete_id, <- !app_assoc.
Qed.

(** X11. When the write to the temporary file fails, [write_file_atomic]
    raises that error; the target and every other file that existed hold what
    they held, and the temporary file is left in the directory with what had
    been written to it: nothing removes it. *)
Theorem write_file_atomic_failure_leaves_temp_file (E : Env)
    (path content written : string) (e : exn) (w : world) :
  write_fault E path = WriteFails written e →
  let dir_path :=
    if decide (os_path_dirname path = "") then "." else os_path_dirname path in
  (∃ name, name ∈ tmp_names E ∧
           files w !! os_path_join dir_path ("tmp" +:+ name) = None) →
  ∃ tmp_path,
    files w !! tmp_path = None ∧
    write_file_atomic E path content w
    = (Raise e,
       World (<[tmp_path := written]> (files w))
             (trace w ++ [Created tmp_path; Written tmp_path])).
Proof.
  intros Hfault dir_path Hname.
  destruct (mkstemp_inner_ok dir_path (tmp_names E) w Hname)
    as (tmp_path & Hfree & Hmk).
  exists tmp_path. split; [done |].
  unfold write_file_atomic. fold dir_path.
  unfold bind, NamedTemporaryFile. rewrite Hfault, Hmk. simpl.
  unfold bind, write_text, raise. simpl.
  by rewrite insert_insert_eq, <- app_assoc.
Qed.

Lemma write_file_atomic_failure_leaves_temp_file_witness :
  let e := Exception "[Errno 28] No space left on device" in
  let E := Fixture.failing_env ["t.py"] true (WriteFails "z =" e) in
  let w := Fixture.disk [("./t.py", Fixture.assign_x_src)] in
  write_fault E "./t.py" = WriteFails "z =" e ∧
  (∃ name, name ∈ tmp_names E ∧
           files w !! os_path_join "." ("tmp" +:+ name) = None) ∧
  ∃ tmp_path,
    files w !! tmp_path = None ∧
    write_file_atomic E "./t.py" "z = 1" w
    = (Raise e,
       World (<[tmp_path := "z ="]> (files w))
             (trace w ++ [Created tmp_path; Written tmp_path])).
Proof.
  intros e E w.
  assert (Hfault : write_fault E "./t.py" = WriteFails "z =" e)
    by reflexivity.
  assert (Hname : ∃ name, name ∈ tmp_names E ∧
            files w !! os_path_join "." ("tmp" +:+ name) = None).
  { exists "qz4m81ab". split; [by left | vm_compute; reflexivity]. }
  split_and!; [exact Hfault | exact Hname |].
  exact (write_file_atomic_failure_leaves_temp_file E "./t.py" "z = 1" "z ="
           e w Hfault Hname).
Defined.

(** X12. When every candidate name of the temporary file is taken,
    [write_file_atomic] raises [FileExistsError] and changes nothing. *)
Theorem write_file_atomic_no_free_name (E : Env) (path content : string)
    (w : world) :
  write_fault E path = NoFault →
  let dir_path :=
    if decide (os_path_dirname path = "") then "." else os_path_dirname path in
  (∀ name, name ∈ tmp_names E →
           is_Some (files w !! os_path_join dir_path ("tmp" +:+ name))) →
  write_file_atomic E path content w
  = (Raise (Exception "[Errno 17] No usable temporary file name found"), w).
Proof.
  intros Hfault dir_path Htaken.
  unfold write_file_atomic. fold dir_path.
  unfold bind, NamedTemporaryFile. rewrite Hfault.
  by rewrite (mkstemp_inner_exhausted dir_path (tmp_names E) w Htaken).
Qed.

Lemma write_file_atomic_no_free_name_witness :
  let E := Fixture.env ["t.py"] true in
  let w := Fixture.disk [("./t.py", Fixture.assign_x_src);
                         ("./tmpqz4m81ab", ""); ("./tmph2v0c7de", "")] in
  write_fault E "./t.py" = NoFault ∧
  (∀ name, name ∈ tmp_names E →
           is_Some (files w !! os_path_join "." ("tmp" +:+ name))) ∧
  write_file_atomic E "./t.py" "z = 1" w
  = (Raise (Exception "[Errno 17] No usable temporary file name found"), w).
Proof.
  intros E w.
  assert (Hfault : write_fault E "./t.py" = NoFault) by reflexivity.
  assert (Htaken : ∀ name, name ∈ tmp_names E →
            is_Some (files w !! os_path_join "." ("tmp" +:+ name))).
  { intros name Hin. simpl in Hin.
    repeat (apply elem_of_cons in Hin as [-> | Hin];
            [vm_compute; eauto |]).
    by apply elem_of_nil in Hin. }
  split_and!; [exact Hfault | exact Htaken |].
  exact (write_file_atomic_no_free_name E "./t.py" "z = 1" w Hfault Htaken).
Defined.

(** ** Undo without a usable manifest *)

(** X13. An undo whose manifest file is missing prints
    [No manifest found at ...] and ends with exit code 0; an undo whose
    manifest cannot be decoded ends with [Fatal error: ...] and exit code 1.
    Neither changes a file. *)
Theorem undo_without_manifest_changes_nothing (A : TreeAdapter) (D : Difflib)
    (J : Json) (E : Env) (args : Args) (w : world) :
  args_undo args = true →
  (files w !! args_manifest args = None →
   run A D J E args w
   = (Ok 0%Z,
      World (files w)
            (trace w ++ [Printed ("No manifest found at "
                                  +:+ args_manifest args)]))) ∧
  (∀ text e,
     files w !! args_manifest args = Some text →
     json_load J (universal_newlines text) = Raise e →
     run A D J E args w
     = (Ok 1%Z,
        World (files w)
              (trace w ++ [Printed ("Fatal error: " +:+ exn_msg e)]))).
Proof.
  intros Hundo. unfold run, try_except, main, parse_args. rewrite Hundo.
  unfold main_with. rewrite Hundo.
  unfold restore_backups, bind, os_path_exists, read_text, lift. split.
  - intros Hnone. rewrite Hnone.
    by rewrite bool_decide_eq_false_2 by (by apply is_Some_None).
  - intros text e Hfile Hload. rewrite Hfile.
    rewrite bool_decide_eq_true_2 by eauto. simpl. by rewrite Hfile, Hload.
Qed.

Lemma undo_without_manifest_changes_nothing_witness :
  let w := Fixture.disk [("./t.py", "z = 1")] in
  let J := Fixture.json [] in
  args_undo Fixture.undo_args = true ∧
  files w !! args_manifest Fixture.undo_args = None ∧
  run Fixture.adapter Fixture.difflib J (Fixture.env [] true)
      Fixture.undo_args w
  = (Ok 0%Z,
     World (files w)
           (trace w ++ [Printed ("No manifest found at "
                                 +:+ args_manifest Fixture.undo_args)])).
Proof.
  intros w J.
  assert (Hundo : args_undo Fixture.undo_args = true) by reflexivity.
  assert (Hnone : files w !! args_manifest Fixture.undo_args = None)
    by (vm_compute; reflexivity).
  split_and!; [exact Hundo | exact Hnone |].
  exact (proj1 (undo_without_manifest_changes_nothing Fixture.adapter
                  Fixture.difflib J (Fixture.env [] true) Fixture.undo_args w
                  Hundo) Hnone).
Defined.

(** ** Backup, write, record, restore *)

(** X14. Backup and undo compose to a round trip. On a file that exists,
    where neither the copies nor the write meet an error: back it up, write
    new content atomically, record the manifest, then restore from that
    manifest.  After the write the file holds the new content; the session
    ends without an exception, and at its end the file holds its original
    bytes again.  The manifest must be decoded as it was encoded, and the
    manifest path and the name of the temporary file must be kept apart from
    the file and from the names of the backups. *)
Theorem backup_write_record_restore_round_trip (J : Json) (E : Env)
    (path backup_dir manifest_path content name : string) (w : world)
    (original : string) :
  let base := os_path_basename path in
  let tmp_path :=
    os_path_join (if decide (os_path_dirname path = "") then "."
                  else os_path_dirname path) ("tmp" +:+ name) in
  let written :=
    manifest <- backup_file E path backup_dir [] ;;
    write_file_atomic E path content in
  let session :=
    manifest <- backup_file E path backup_dir [] ;;
    write_file_atomic E path content ;;;
    record_manifest E J manifest_path manifest ;;;
    restore_backups E J manifest_path in
  files w !! path = Some original →
  write_fault E path = NoFault → dump_fault E manifest_path = None →
  (∀ other, copy_fault E path other = None ∧ copy_fault E other path = None) →
  name ∈ tmp_names E → files w !! tmp_path = None →
  (∀ k, tmp_path ≠ backup_candidate backup_dir base k) →
  manifest_path ≠ path →
  (∀ k, manifest_path ≠ backup_candidate backup_dir base k) →
  (∀ manifest w1,
     backup_file E path backup_dir [] w = (Ok manifest, w1) →
     json_load J (universal_newlines (json_dump J manifest)) = Ok manifest) →
  files (written w).2 !! path = Some content ∧
  ∃ w', session w = (Ok tt, w') ∧ files w' !! path = Some original.
Proof.
  intros base tmp_path written session Hpath Hfault Hdump Hcopy Hname Hfree
    Htmp Hmp Hcand Hjson.
  destruct (backup_file_probe E path backup_dir [] w)
    as (k & _ & Hbfree & Hprobe).
  set (backup_path := backup_candidate backup_dir (os_path_basename path) k)
    in *.
  assert (Hbp : path ≠ backup_path) by congruence.
  set (w1 := World (<[backup_path := original]> (files w))
                   (trace w ++ [Copied path backup_path])).
  assert (Hbackup : backup_file E path backup_dir [] w
                    = (Ok [(path, backup_path)], w1)).
  { rewrite Hprobe. unfold bind.
    by rewrite (shutil_copy2_done E _ _ original)
      by (done || apply Hcopy). }
  specialize (Hjson _ _ Hbackup).
  assert (Hfree1 : ∃ name, name ∈ tmp_names E ∧
            files w1 !! os_path_join
                          (if decide (os_path_dirname path = "") then "."
                           else os_path_dirname path) ("tmp" +:+ name)
            = None).
  { exists name. split; [done |]. simpl.
    rewrite lookup_insert_ne; [done |]. intros Heq. by apply (Htmp k). }
  destruct (write_file_atomic_succeeds E path content w1 Hfault Hfree1)
    as [tmp' Hwrite].
  split.
  { subst written. unfold bind. rewrite Hbackup, Hwrite. simpl.
    by rewrite lookup_insert_eq. }
  subst session. unfold bind at 1. rewrite Hbackup.
  unfold bind at 1. rewrite Hwrite.
  unfold bind at 1, record_manifest, write_text. rewrite Hdump.
  match goal with
  | |- ∃ w', restore_backups _ _ _ ?w0 = _ ∧ _ => set (w3 := w0)
  end.
  assert (Hmanifest3 : files w3 !! manifest_path
                       = Some (json_dump J [(path, backup_path)]))
    by (subst w3; simpl; by rewrite lookup_insert_eq).
  assert (Hbackup3 : files w3 !! backup_path = Some original).
  { subst w3 w1. simpl. rewrite lookup_insert_ne by apply Hcand.
    rewrite lookup_insert_ne by done. by rewrite lookup_insert_eq. }
  clearbody w3.
  rewrite (restore_backups_loaded E J manifest_path _ [(path, backup_path)])
    by done.
  rewrite restore_entries_done.
  - eexists. split; [reflexivity |]. simpl. rewrite Hbackup3. simpl.
    by rewrite lookup_insert_eq.
  - repeat constructor. unfold copy_error. simpl.
    rewrite decide_False by done. by rewrite (proj2 (Hcopy backup_path)).
Qed.

Lemma backup_write_record_restore_round_trip_witness :
  let J := Fixture.json [[("./t.py", "/tmp/b/t.py.bak")]] in
  let E := Fixture.env ["t.py"] true in
  let w := Fixture.disk [("./t.py", Fixture.assign_x_src)] in
  let written :=
    manifest <- backup_file E "./t.py" "/tmp/b" [] ;;
    write_file_atomic E "./t.py" "z = 1" in
  let session :=
    manifest <- backup_file E "./t.py" "/tmp/b" [] ;;
    write_file_atomic E "./t.py" "z = 1" ;;;
    record_manifest E J ".rename_manifest.json" manifest ;;;
    restore_backups E J ".rename_manifest.json" in
  files w !! "./t.py" = Some Fixture.assign_x_src ∧
  write_fault E "./t.py" = NoFault ∧
  dump_fault E ".rename_manifest.json" = None ∧
  (∀ other, copy_fault E "./t.py" other = None ∧
            copy_fault E other "./t.py" = None) ∧
  "qz4m81ab" ∈ tmp_names E ∧
  files w !! "./tmpqz4m81ab" = None ∧
  (∀ k, "./tmpqz4m81ab" ≠ backup_candidate "/tmp/b" "t.py" k) ∧
  ".rename_manifest.json" ≠ "./t.py" ∧
  (∀ k, ".rename_manifest.json" ≠ backup_candidate "/tmp/b" "t.py" k) ∧
  (∀ manifest w1,
     backup_file E "./t.py" "/tmp/b" [] w = (Ok manifest, w1) →
     json_load J (universal_newlines (json_dump J manifest)) = Ok manifest) ∧
  files (written w).2 !! "./t.py" = Some "z = 1" ∧
  ∃ w', session w = (Ok tt, w') ∧
        files w' !! "./t.py" = Some Fixture.assign_x_src.
Proof.
  intros J E w written session.
  assert (Hpath : files w !! "./t.py" = Some Fixture.assign_x_src)
    by (vm_compute; reflexivity).
  assert (Hfault : write_fault E "./t.py" = NoFault) by reflexivity.
  assert (Hdump : dump_fault E ".rename_manifest.json" = None)
    by reflexivity.
  assert (Hcopy : ∀ other, copy_fault E "./t.py" other = None ∧
                           copy_fault E other "./t.py" = None)
    by (intros other; split; reflexivity).
  assert (Hname : "qz4m81ab" ∈ tmp_names E) by (by left).
  assert (Hfree : files w !! "./tmpqz4m81ab" = None)
    by (vm_compute; reflexivity).
  assert (Hapart : ∀ first rest k,
            String first rest ≠ backup_candidate "/tmp/b" "t.py" k ∨
            first = "/"%char).
  { intros first rest k.
    destruct (decide (first = "/"%char)) as [-> | Hne]; [by right | left].
    unfold backup_candidate, os_path_join. rewrite !append_cons. simpl.
    congruence. }
  assert (Htmp : ∀ k, "./tmpqz4m81ab" ≠ backup_candidate "/tmp/b" "t.py" k).
  { intros k. by destruct (Hapart "."%char "/tmpqz4m81ab" k). }
  assert (Hmp : ".rename_manifest.json" ≠ "./t.py") by discriminate.
  assert (Hcand : ∀ k, ".rename_manifest.json"
                       ≠ backup_candidate "/tmp/b" "t.py" k).
  { intros k. by destruct (Hapart "."%char "rename_manifest.json" k). }
  assert (Hjson : ∀ manifest w1,
            backup_file E "./t.py" "/tmp/b" [] w = (Ok manifest, w1) →
            json_load J (universal_newlines (json_dump J manifest))
            = Ok manifest).
  { intros manifest w1 Hrun.
    assert (Hfst : (backup_file E "./t.py" "/tmp/b" [] w).1
                   = Ok [("./t.py", "/tmp/b/t.py.bak")])
      by (vm_compute; reflexivity).
    rewrite Hrun in Hfst. injection Hfst as ->.
    vm_compute. reflexivity. }
  split_and!; [exact Hpath | exact Hfault | exact Hdump | exact Hcopy |
               exact Hname |
               exact Hfree | exact Htmp | exact Hmp | exact Hcand |
               exact Hjson | ..];
    apply (backup_write_record_restore_round_trip J E "./t.py" "/tmp/b"
             ".rename_manifest.json" "z = 1" "qz4m81ab" w
             Fixture.assign_x_src Hpath Hfault Hdump Hcopy Hname Hfree Htmp
             Hmp Hcand Hjson).
Defined.

(** ** Computations that only print *)

Lemma prints_and_returns_ret {A} (P : A → Prop) (a : A) :
  P a → prints_and_returns P (ret a).
Proof. intros Ha w. exists a, []. simpl. by rewrite world_eta. Qed.

Lemma prints_and_returns_print (P : unit → Prop) (line : string) :
  P tt → prints_and_returns P (print line).
Proof. intros Ha w. by exists tt, [line]. Qed.

Lemma prints_and_returns_bind {A B} (P : A → Prop) (Q : B → Prop)
    (c : io A) (k : A → io B) :
  prints_and_returns P c →
  (∀ a, P a → prints_and_returns Q (k a)) →
  prints_and_returns Q (bind c k).
Proof.
  intros Hc Hk w. unfold bind.
  destruct (Hc w) as (a & lines1 & -> & Ha).
  destruct (Hk a Ha (World (files w) (trace w ++ map Printed lines1)))
    as (b & lines2 & -> & Hb).
  exists b, (lines1 ++ lines2). simpl.
  by rewrite List.map_app, app_assoc.
Qed.

Lemma prints_and_returns_weaken {A} (P Q : A → Prop) (c : io A) :
  (∀ a, P a → Q a) → prints_and_returns P c → prints_and_returns Q c.
Proof.
  intros HPQ Hc w. destruct (Hc w) as (a & lines & Hrun & Ha). eauto.
Qed.

Lemma prints_and_returns_for_each {A} (xs : list A) (body : A → io unit) :
  (∀ x, prints_and_returns (λ _, True) (body x)) →
  prints_and_returns (λ _, True) (for_each xs body).
Proof.
  intros Hbody. induction xs as [| x xs IH].
  - by apply prints_and_returns_ret.
  - rewrite for_each_cons.
    eapply prints_and_returns_bind; [apply Hbody | intros _ _; exact IH].
Qed.

Lemma prints_and_returns_print_summary (stats : Stats) :
  prints_and_returns (λ _, True) (print_summary stats).
Proof.
  unfold print_summary.
  repeat (eapply (prints_and_returns_bind (λ _, True));
          [by apply prints_and_returns_print | intros _ _]).
  by apply prints_and_returns_print.
Qed.

Lemma generate_diff_differ (D : Difflib) (original modified path : string) :
  original ≠ modified → generate_diff D original modified path ≠ "".
Proof.
  intros Hne Hempty. unfold generate_diff in Hempty.
  assert (Hlines : splitlines original ≠ splitlines modified)
    by (intros Heq; by apply Hne, splitlines_inj).
  destruct (unified_diff_differ D _ _ ("a/" +:+ path) ("b/" +:+ path) Hlines)
    as [hunks Hdiff].
  rewrite Hdiff, join_cons in Hempty. discriminate Hempty.
Qed.

Lemma preview_changes_run (D : Difflib) (changes : dict (string * string))
    (w : world) :
  preview_changes D changes w
  = (Ok tt,
     World (files w)
           (trace w ++ map Printed (flat_map (preview_lines D) changes))).
Proof.
  unfold preview_changes. revert w.
  induction changes as [| [path [original modified]] changes IH]; intros w.
  - simpl. by rewrite world_eta.
  - rewrite for_each_cons. unfold bind at 1.
    change (flat_map (preview_lines D)
              ((path, (original, modified)) :: changes))
      with (preview_lines D (path, (original, modified))
            ++ flat_map (preview_lines D) changes).
    unfold preview_lines at 1.
    destruct (decide (original ≠ modified)) as [Hne | Heq].
    + rewrite !bind_print. unfold print, emit.
      rewrite (decide_False (P := generate_diff D original modified path = ""))
        by (by apply generate_diff_differ).
      rewrite IH. simpl. by rewrite <- !app_assoc.
    + unfold ret. rewrite IH. simpl. reflexivity.
Qed.

(** X15. [preview_changes] changes no file and does not raise; for every
    change record whose texts differ it prints the separator, the path, the
    separator and the diff itself, in the order of [changes], and nothing for
    the other records: the fallback line [No changes] is never printed. *)
Theorem preview_changes_prints_each_diff (D : Difflib)
    (changes : dict (string * string)) (w : world) :
  preview_changes D changes w
  = (Ok tt,
     World (files w)
           (trace w ++ map Printed (flat_map (preview_lines D) changes))) ∧
  Forall (λ line, line ≠ "No changes") (flat_map (preview_lines D) changes).
Proof.
  split; [apply preview_changes_run |].
  apply Forall_forall. intros line Hin.
  apply list_elem_of_In, in_flat_map in Hin
    as ([path [original modified]] & _ & Hin).
  unfold preview_lines in Hin.
  destruct (decide (original ≠ modified)) as [Hne | _];
    [| by destruct Hin].
  pose proof (generate_diff_differ D original modified path Hne) as Hdiff.
  unfold generate_diff in *.
  destruct (unified_diff_differ D (splitlines original) (splitlines modified)
              ("a/" +:+ path) ("b/" +:+ path)) as [hunks Hhunks].
  { intros Heq. by apply Hne, splitlines_inj. }
  rewrite Hhunks, join_cons in Hin.
  destruct Hin as [<- | [<- | [<- | [<- | []]]]]; discriminate.
Qed.

(** ** A run without [--apply] *)






(** ** An apply run up to the confirmation *)

Lemma Forall_scan_effect_printed (lines : list string) :
  Forall scan_effect (map Printed lines).
Proof.
  apply Forall_forall. intros e He.
  apply list_elem_of_In, in_map_iff in He as (line & <- & _). exact I.
Qed.

Lemma spares_files_of_prints {A} (P : A → Prop) (c : io A) :
  prints_and_returns P c → spares_files c.
Proof.
  intros Hc w. destruct (Hc w) as (a & lines & -> & Ha). simpl.
  split; [by intros p v Hp |].
  exists (map Printed lines). split; [done |].
  apply Forall_scan_effect_printed.
Qed.

Lemma spares_files_bind {A B} (c : io A) (k : A → io B) :
  spares_files c → (∀ a, spares_files (k a)) → spares_files (bind c k).
Proof.
  intros Hc Hk w. unfold bind.
  destruct (Hc w) as (Hkeep1 & tr1 & Htr1 & Hall1).
  destruct (c w) as [[a | e] w1]; simpl in *.
  - destruct (Hk a w1) as (Hkeep2 & tr2 & Htr2 & Hall2). split.
    + intros p v Hp. by apply Hkeep2, Hkeep1.
    + exists (tr1 ++ tr2). rewrite Htr2, Htr1, app_assoc.
      split; [done | by apply Forall_app].
  - split; [done | by exists tr1].
Qed.

Lemma spares_files_backup_file (E : Env) (path backup_dir : string)
    (manifest : dict string) :
  spares_files (backup_file E path backup_dir manifest).
Proof.
  intros w. split; [apply backup_file_keeps |].
  destruct (backup_file_probe E path backup_dir manifest w)
    as (k & _ & _ & ->).
  unfold bind, shutil_copy2, ret.
  destruct (files w !! path) as [bytes |];
    [destruct (decide (path = _)) |]; simpl.
  - exists []. by rewrite app_nil_r.
  - destruct (copy_fault E path _) as [[[reached |] e] |]; simpl.
    + eexists [_]. split; [done | by repeat constructor].
    + exists []. by rewrite app_nil_r.
    + eexists [_]. split; [done | by repeat constructor].
  - exists []. by rewrite app_nil_r.
Qed.

Lemma scan_file_spares (A : TreeAdapter) (E : Env) (args : Args)
    (backup_dir path : string) (st : dict (string * string) * dict string) :
  spares_files (scan_file A E args backup_dir st path).
Proof.
  destruct st as [changes manifest]. unfold scan_file.
  apply spares_files_bind.
  { eapply (spares_files_of_prints (λ _, True)). intros w.
    destruct (safe_process_file_cases A path (args_old args) (args_new args)
                backup_dir w)
      as (original & modified & touched & lines & -> & _).
    by eexists _, lines. }
  intros [[original modified] touched].
  assert (Hret : ∀ st' : dict (string * string) * dict string,
            spares_files (ret st')).
  { intros st'. eapply (spares_files_of_prints (λ _, True)).
    by apply prints_and_returns_ret. }
  destruct (decide (original ≠ "")); [| apply Hret].
  destruct (touched && args_apply args); [| apply Hret].
  apply spares_files_bind; [apply spares_files_backup_file |].
  intros manifest'. apply Hret.
Qed.

Lemma scan_files_spares (A : TreeAdapter) (E : Env) (args : Args)
    (backup_dir : string) (py_files : list string)
    (st : dict (string * string) * dict string) :
  spares_files (scan_files A E args backup_dir py_files st).
Proof.
  revert st. induction py_files as [| path rest IH]; intros st.
  - eapply (spares_files_of_prints (λ _, True)).
    by apply prints_and_returns_ret.
  - rewrite scan_files_cons.
    apply spares_files_bind; [apply scan_file_spares | apply IH].
Qed.

Lemma after_scan_declined (D : Difflib) (J : Json) (E : Env) (args : Args)
    (st : dict (string * string) * dict string) :
  args_apply args = true → operator_confirms E = false →
  prints_and_returns (λ code, code = 1%Z) (after_scan D J E args st).
Proof.
  intros Happly Hno. destruct st as [changes manifest].
  unfold after_scan. rewrite Happly. simpl negb. rewrite orb_false_r.
  cbv iota.
  eapply (prints_and_returns_bind (λ _, True)).
  { destruct (args_preview args); [| by apply prints_and_returns_ret].
    eapply (prints_and_returns_bind (λ _, True)).
    - intros w. eexists tt, _. split; [apply preview_changes_run | done].
    - intros _ _. apply prints_and_returns_print_summary. }
  intros _ _.
  eapply (prints_and_returns_bind (λ yes, yes = false)).
  { unfold confirm.
    eapply (prints_and_returns_bind (λ _, True));
      [by apply (prints_and_returns_print (λ _, True)) | intros _ _].
    by apply prints_and_returns_ret. }
  intros yes ->. simpl.
  eapply (prints_and_returns_bind (λ _, True));
    [by apply prints_and_returns_print | intros _ _].
  by apply prints_and_returns_ret.
Qed.

(** X17. In an apply run, on a validated namespace, whose confirmation is
    declined, no file is overwritten: the run ends with exit code 1 (0 when
    no Python file was found), every file that existed holds what it held,
    and the record gains only printed lines, the making of the backup
    directory and the backup copies of the scan.  The same holds when the
    run does not reach the confirmation, because the directory cannot be
    made or a backup copy fails. *)
Theorem declined_run_overwrites_nothing (A : TreeAdapter) (D : Difflib)
    (J : Json) (E : Env) (args : Args) (w : world) :
  args_undo args = false → args_apply args = true →
  parse_args A args = Parsed args →
  operator_confirms E = false →
  ∃ w' tr,
    run A D J E args w
    = (Ok (if decide (collect_py_files E (args_path args) = [])
           then 0%Z else 1%Z), w') ∧
    keeps_files w w' ∧
    trace w' = trace w ++ tr ∧ Forall scan_effect tr.
Proof.
  intros Hundo Happly Hparse Hno.
  unfold run, try_except, main. rewrite Hparse.
  rewrite main_with_scan by done.
  set (py_files := collect_py_files E (args_path args)).
  set (found := [Printed ("Scanning Python files in: " +:+ args_path args);
                 Printed ("Found " +:+ pretty (length py_files)
                          +:+ " Python files")]).
  destruct (decide (py_files = [])) as [_ | _].
  { eexists _, (found ++ [_]).
    split_and!; [done | by intros p v Hp | simpl; by rewrite <- app_assoc |].
    by repeat constructor. }
  destruct (mkdtemp E "ast_rename_backup_") as [backup_dir | e].
  2: { eexists _, (found ++ [_]).
       split_and!; [done | by intros p v Hp
                    | simpl; by rewrite <- app_assoc |].
       by repeat constructor. }
  set (w2 := World (files w)
               (trace (World (files w) (trace w ++ found))
                ++ [MadeDir backup_dir])).
  assert (Htr2 : trace w2 = trace w ++ found ++ [MadeDir backup_dir])
    by (subst w2; simpl; by rewrite <- app_assoc).
  assert (Hfiles2 : files w2 = files w) by done.
  assert (Hfound : Forall scan_effect (found ++ [MadeDir backup_dir]))
    by (by repeat constructor).
  clearbody w2. unfold bind.
  destruct (scan_files_spares A E args backup_dir py_files ([], []) w2)
    as (Hkeep & tr & Htr & Hall).
  destruct (scan_files A E args backup_dir py_files ([], []) w2)
    as [[st | e] w3]; simpl in Hkeep, Htr.
  - destruct (after_scan_declined D J E args st Happly Hno w3)
      as (code & lines & -> & ->).
    eexists _, ((found ++ [MadeDir backup_dir]) ++ tr ++ map Printed lines).
    split_and!; [done | | |].
    + intros p v Hp. simpl. apply Hkeep. by rewrite Hfiles2.
    + simpl. by rewrite Htr, Htr2, <- !app_assoc.
    + apply Forall_app. split; [done |].
      apply Forall_app. split; [done | apply Forall_scan_effect_printed].
  - eexists _, ((found ++ [MadeDir backup_dir]) ++ tr ++ [_]).
    unfold print, emit, bind, ret.
    split_and!; [reflexivity | | |].
    + intros p v Hp. simpl. apply Hkeep. by rewrite Hfiles2.
    + simpl. by rewrite Htr, Htr2, <- !app_assoc.
    + apply Forall_app. split; [done |].
      apply Forall_app. split; [done | by repeat constructor].
Qed.

Lemma declined_run_overwrites_nothing_witness :
  let args := Fixture.args "x" "z" false true in
  let E := Fixture.env ["t.py"] false in
  let w := Fixture.disk [("./t.py", Fixture.assign_x_src)] in
  args_undo args = false ∧ args_apply args = true ∧
  parse_args Fixture.adapter args = Parsed args ∧
  operator_confirms E = false ∧
  ∃ w' tr,
    run Fixture.adapter Fixture.difflib (Fixture.json []) E args w
    = (Ok (if decide (collect_py_files E (args_path args) = [])
           then 0%Z else 1%Z), w') ∧
    keeps_files w w' ∧
    trace w' = trace w ++ tr ∧ Forall scan_effect tr.
Proof.
  intros args E w.
  assert (Hundo : args_undo args = false) by reflexivity.
  assert (Happly : args_apply args = true) by reflexivity.
  assert (Hparse : parse_args Fixture.adapter args = Parsed args)
    by reflexivity.
  assert (Hno : operator_confirms E = false) by reflexivity.
  split_and!; [exact Hundo | exact Happly | exact Hparse | exact Hno |].
  exact (declined_run_overwrites_nothing Fixture.adapter Fixture.difflib
           (Fixture.json []) E args w Hundo Happly Hparse Hno).
Defined.

(** ** Exit codes *)

Lemma returns_only_ret {A} (P : A → Prop) (a : A) :
  P a → returns_only P (ret a).
Proof. intros Ha w a' w' [= <- _]. exact Ha. Qed.

Lemma returns_only_bind {A B} (P : B → Prop) (c : io A) (k : A → io B) :
  (∀ a, returns_only P (k a)) → returns_only P (bind c k).
Proof.
  intros Hk w b w'. unfold bind.
  destruct (c w) as [[a | e] w1]; [apply Hk | discriminate].
Qed.

Lemma main_with_exit_code (A : TreeAdapter) (D : Difflib) (J : Json)
    (E : Env) (args : Args) :
  returns_only (λ code, code = 0%Z ∨ code = 1%Z) (main_with A D J E args).
Proof.
  unfold main_with.
  repeat first
    [ apply returns_only_ret; auto
    | apply returns_only_bind; intros ?
    | match goal with
      | |- returns_only _ (if ?b then _ else _) => destruct b
      | |- returns_only _ (match ?x with (_, _) => _ end) => destruct x
      end ].
Qed.

Lemma parse_args_same (A : TreeAdapter) (args args' : Args) :
  parse_args A args = Parsed args' → args' = args.
Proof.
  unfold parse_args. repeat case_match; congruence.
Qed.

(** X18. The process ends with exit code 0, 1 or 2, whatever happens in the
    run.  The code is 2 exactly when [parse_args] refuses the namespace, and
    then the run has done nothing else; an exception that escapes [main] is
    caught by the top-level handler, which prints [Fatal error: ...] and
    exits with 1. *)
Theorem run_exit_code_is_0_1_or_2 (A : TreeAdapter) (D : Difflib) (J : Json)
    (E : Env) (args : Args) (w : world) :
  ∃ code w',
    run A D J E args w = (Ok code, w') ∧
    (code = 0%Z ∨ code = 1%Z ∨ code = 2%Z) ∧
    (code = 2%Z ↔ ∃ message, parse_args A args = UsageError message) ∧
    (∀ message, parse_args A args = UsageError message →
                w' = World (files w) (trace w ++ [Usage message])) ∧
    (∀ e w1, main A D J E args w = (Raise e, w1) →
             code = 1%Z ∧
             w' = World (files w1)
                        (trace w1 ++ [Printed ("Fatal error: "
                                               +:+ exn_msg e)])).
Proof.
  unfold run, try_except, main.
  destruct (parse_args A args) as [args' | message] eqn:Hparse.
  - pose proof (main_with_exit_code A D J E args' w) as Hcode.
    destruct (main_with A D J E args' w) as [[code | e] w1].
    + exists code, w1. specialize (Hcode _ _ eq_refl).
      split_and!; [done | tauto | | discriminate | discriminate].
      split; [intros -> | intros [message [=]]].
      destruct Hcode; discriminate.
    + eexists 1%Z, _.
      split_and!; [done | tauto | | discriminate |].
      * split; [discriminate | intros [message [=]]].
      * by intros e' w1' [= <- <-].
  - eexists 2%Z, _.
    split_and!; [done | tauto | | | discriminate].
    + split; [by eauto | done].
    + by intros message' [= <-].
Qed.

(** A namespace whose two spellings are equal is refused: the run ends with
    exit code 2 and has touched nothing. *)
Example run_refuses_equal_spellings :
  let w := Fixture.disk [("./t.py", Fixture.assign_x_src)] in
  run Fixture.adapter Fixture.difflib (Fixture.json [])
      (Fixture.env ["t.py"] true) (Fixture.args "x" "x" false true) w
  = (Ok 2%Z, World (files w) [Usage "--old and --new must be different"]).
Proof. vm_compute. reflexivity. Qed.

(** ** The dictionaries built by the scan *)

Lemma dict_set_keys {V} (d : dict V) (k : string) (v : V) :
  map fst (dict_set d k v)
  = if decide (k ∈ map fst d) then map fst d else map fst d ++ [k].
Proof.
  induction d as [| [k' v'] d IH].
  - destruct (decide (k ∈ map fst [])) as [Hin | _]; [| done].
    by apply elem_of_nil in Hin.
  - change (map fst ((k', v') :: d)) with (k' :: map fst d).
    change (dict_set ((k', v') :: d) k v)
      with (if decide (k' = k) then (k, v) :: d
            else (k', v') :: dict_set d k v).
    destruct (decide (k' = k)) as [-> | Hne].
    + destruct (decide (k ∈ k :: map fst d)) as [_ | Hnot]; [done |].
      destruct Hnot. by left.
    + change (map fst ((k', v') :: dict_set d k v))
        with (k' :: map fst (dict_set d k v)).
      rewrite IH. destruct (decide (k ∈ map fst d)) as [Hin | Hnot].
      * destruct (decide (k ∈ k' :: map fst d)) as [_ | Hnot]; [done |].
        destruct Hnot. by right.
      * destruct (decide (k ∈ k' :: map fst d)) as [Hin | _]; [| done].
        apply elem_of_cons in Hin as [? | ?]; congruence.
Qed.

Lemma dict_set_keys_NoDup {V} (d : dict V) (k : string) (v : V) :
  NoDup (map fst d) → NoDup (map fst (dict_set d k v)).
Proof.
  intros Hd. rewrite dict_set_keys.
  destruct (decide (k ∈ map fst d)) as [Hin | Hnot]; [done |].
  apply NoDup_app. split_and!; [done | | apply NoDup_singleton].
  intros x Hx Hk. apply list_elem_of_singleton in Hk. congruence.
Qed.

Lemma dict_set_keys_elem {V} (d : dict V) (k : string) (v : V) (p : string) :
  p ∈ map fst (dict_set d k v) ↔ p ∈ map fst d ∨ p = k.
Proof.
  rewrite dict_set_keys. destruct (decide (k ∈ map fst d)) as [Hin | Hnot].
  - split; [by left | intros [? | ->]; done].
  - rewrite elem_of_app, list_elem_of_singleton. tauto.
Qed.

Lemma backup_file_manifest (E : Env) (path backup_dir : string)
    (manifest manifest' : dict string) (w w' : world) :
  backup_file E path backup_dir manifest w = (Ok manifest', w') →
  ∃ backup_path, manifest' = dict_set manifest path backup_path.
Proof.
  destruct (backup_file_probe E path backup_dir manifest w)
    as (k & _ & _ & ->).
  unfold bind, ret.
  destruct (shutil_copy2 E path _ w) as [[[] | e] w1]; [| discriminate].
  intros [= <- _]. by eexists.
Qed.

(** The invariant of the scanning loop on [changes] and [manifest]. *)
Lemma scan_file_keys (A : TreeAdapter) (E : Env) (args : Args)
    (backup_dir path : string)
    (st st' : dict (string * string) * dict string) (w w' : world) :
  scan_file A E args backup_dir st path w = (Ok st', w') →
  (NoDup (map fst st.1) → NoDup (map fst st'.1)) ∧
  (∀ p, p ∈ map fst st'.1 → p ∈ map fst st.1 ∨ p = path) ∧
  ((∀ p, p ∈ map fst st.2 → p ∈ map fst st.1) →
   ∀ p, p ∈ map fst st'.2 → p ∈ map fst st'.1).
Proof.
  destruct st as [changes manifest]. unfold scan_file, bind.
  destruct (safe_process_file_cases A path (args_old args) (args_new args)
              backup_dir w)
    as (original & modified & touched & lines & -> & _).
  destruct (decide (original ≠ "")) as [Hnonempty | _].
  - destruct (touched && args_apply args).
    + destruct (backup_file E path backup_dir manifest _)
        as [[manifest1 | e] w1] eqn:Hbackup; [| discriminate].
      apply backup_file_manifest in Hbackup as [backup_path ->].
      intros [= <- _]. simpl. split_and!.
      * apply dict_set_keys_NoDup.
      * intros p Hp. by apply dict_set_keys_elem in Hp.
      * intros Hsub p Hp. apply dict_set_keys_elem.
        apply dict_set_keys_elem in Hp as [Hp | ->]; auto.
    + intros [= <- _]. simpl. split_and!.
      * apply dict_set_keys_NoDup.
      * intros p Hp. by apply dict_set_keys_elem in Hp.
      * intros Hsub p Hp. apply dict_set_keys_elem. auto.
  - intros [= <- _]. simpl. split_and!; auto.
Qed.

Lemma scan_files_keys (A : TreeAdapter) (E : Env) (args : Args)
    (backup_dir : string) (py_files : list string)
    (st st' : dict (string * string) * dict string) (w w' : world) :
  scan_files A E args backup_dir py_files st w = (Ok st', w') →
  (NoDup (map fst st.1) → NoDup (map fst st'.1)) ∧
  (∀ p, p ∈ map fst st'.1 → p ∈ map fst st.1 ∨ p ∈ py_files) ∧
  ((∀ p, p ∈ map fst st.2 → p ∈ map fst st.1) →
   ∀ p, p ∈ map fst st'.2 → p ∈ map fst st'.1).
Proof.
  revert st w. induction py_files as [| path rest IH]; intros st w.
  - intros [= <- _]. split_and!; auto.
  - rewrite scan_files_cons. unfold bind.
    destruct (scan_file A E args backup_dir st path w)
      as [[st1 | e] w1] eqn:Hfile; [| discriminate].
    intros Hrest.
    destruct (scan_file_keys _ _ _ _ _ _ _ _ _ Hfile)
      as (Hnd1 & Hin1 & Hsub1).
    destruct (IH _ _ Hrest) as (Hnd2 & Hin2 & Hsub2).
    split_and!; [auto | | auto].
    intros p Hp. destruct (Hin2 p Hp) as [Hp1 | Hp1].
    + destruct (Hin1 p Hp1) as [Hp0 | ->]; [by left | right; by left].
    + right. by right.
Qed.

(** X19. After the scan, [changes] has one record per path, every recorded
    path is one of the files found, every path of the manifest has a change
    record, and the number of files scanned in the summary is at most the
    number of files found. *)
Theorem scan_records_are_distinct_found_files (A : TreeAdapter) (E : Env)
    (args : Args) (backup_dir : string) (py_files : list string)
    (w w' : world)
    (changes : dict (string * string)) (manifest : dict string) :
  scan_files A E args backup_dir py_files ([], []) w
  = (Ok (changes, manifest), w') →
  NoDup (map fst changes) ∧
  (∀ p, p ∈ map fst changes → p ∈ py_files) ∧
  (∀ p, p ∈ map fst manifest → p ∈ map fst changes) ∧
  files_scanned (summarize_stats changes) ≤ length py_files.
Proof.
  intros Hscan.
  destruct (scan_files_keys _ _ _ _ _ _ _ _ _ Hscan) as (Hnd & Hin & Hsub).
  simpl in *.
  assert (Hnodup : NoDup (map fst changes)) by (apply Hnd; constructor).
  assert (Hfound : ∀ p, p ∈ map fst changes → p ∈ py_files).
  { intros p Hp. destruct (Hin p Hp) as [Hnil | Hp']; [| done].
    by apply elem_of_nil in Hnil. }
  split_and!; [done | done | |].
  - apply Hsub. intros p Hp. by apply elem_of_nil in Hp.
  - rewrite <- (length_map fst changes).
    apply submseteq_length, NoDup_submseteq; done.
Qed.

Lemma scan_records_are_distinct_found_files_witness :
  let E := Fixture.env ["t.py"] true in
  let args := Fixture.args "x" "z" false true in
  let w := Fixture.disk [("./t.py", Fixture.assign_x_src)] in
  let final := scan_files Fixture.adapter E args "/tmp/b" ["./t.py"; "./t.py"]
                 ([], []) w in
  let changes := [("./t.py", (Fixture.assign_x_src, "z = 1"))] in
  let manifest := [("./t.py", "/tmp/b/t.py.bak.1")] in
  final = (Ok (changes, manifest), final.2) ∧
  NoDup (map fst changes) ∧
  (∀ p, p ∈ map fst changes → p ∈ ["./t.py"; "./t.py"]) ∧
  (∀ p, p ∈ map fst manifest → p ∈ map fst changes) ∧
  files_scanned (summarize_stats changes) ≤ 2.
Proof.
  intros E args w final changes manifest.
  assert (Hscan : final = (Ok (changes, manifest), final.2))
    by (vm_compute; reflexivity).
  split; [exact Hscan |].
  exact (scan_records_are_distinct_found_files Fixture.adapter E args "/tmp/b"
           ["./t.py"; "./t.py"] w final.2 changes manifest Hscan).
Defined.

(** ** What an undo writes *)





(** ** The writing loop *)

Lemma for_each_app {A} (xs ys : list A) (body : A → io unit) (w : world) :
  for_each (xs ++ ys) body w
  = bind (for_each xs body) (λ _, for_each ys body) w.
Proof.
  revert w. induction xs as [| x xs IH]; intros w; [reflexivity |].
  simpl. unfold bind. destruct (body x w) as [[[] | e] w1]; [| done].
  rewrite IH. reflexivity.
Qed.

(** X21. The writing loop leaves files whose two texts are equal alone: on a
    set of change records without a difference it writes nothing, prints
    nothing and returns. *)
Theorem apply_changes_skips_unchanged (E : Env)
    (changes : dict (string * string)) (w : world) :
  Forall (λ kv, fst (snd kv) = snd (snd kv)) changes →
  apply_changes E changes w = (Ok tt, w).
Proof.
  unfold apply_changes. intros Hall. revert w.
  induction Hall as [| [path [original modified]] changes Heq _ IH];
    intros w; [reflexivity |].
  rewrite for_each_cons. unfold bind. simpl in Heq.
  rewrite decide_False by (intros Hne; by apply Hne). apply IH.
Qed.

Lemma apply_changes_skips_unchanged_witness :
  let changes := [("./t.py", ("x = 1", "x = 1")); ("./u.py", ("", ""))] in
  let w := Fixture.disk [("./t.py", "x = 1"); ("./u.py", "")] in
  Forall (λ kv, fst (snd kv) = snd (snd kv)) changes ∧
  apply_changes (Fixture.env [] true) changes w = (Ok tt, w).
Proof.
  intros changes w.
  assert (Hall : Forall (λ kv, fst (snd kv) = snd (snd kv)) changes)
    by (by repeat constructor).
  split; [exact Hall |].
  exact (apply_changes_skips_unchanged (Fixture.env [] true) changes w Hall).
Defined.

(** X22. The writing loop stops at the first write that fails: when the
    records before a changed file have been applied and the atomic write of
    that file raises, the loop raises the same error in the world the failed
    write left, and no later record is looked at. *)
Theorem apply_changes_halts_at_first_failure (E : Env)
    (before after : dict (string * string))
    (path original modified : string) (w w1 w2 : world) (e : exn) :
  original ≠ modified →
  apply_changes E before w = (Ok tt, w1) →
  write_file_atomic E path modified w1 = (Raise e, w2) →
  apply_changes E (before ++ (path, (original, modified)) :: after) w
  = (Raise e, w2).
Proof.
  unfold apply_changes. intros Hne Hbefore Hwrite.
  rewrite for_each_app. unfold bind at 1. rewrite Hbefore.
  rewrite for_each_cons. unfold bind at 1.
  rewrite decide_True by done. unfold bind at 1. by rewrite Hwrite.
Qed.

Lemma apply_changes_halts_at_first_failure_witness :
  let e := Exception "[Errno 13] Permission denied" in
  let E := Fixture.failing_env ["t.py"; "u.py"] true (CreateFails e) in
  let w := Fixture.disk [("./t.py", "x = 1"); ("./u.py", "x = 2")] in
  "x = 1" ≠ "z = 1" ∧
  apply_changes E [] w = (Ok tt, w) ∧
  write_file_atomic E "./t.py" "z = 1" w = (Raise e, w) ∧
  apply_changes E ([] ++ ("./t.py", ("x = 1", "z = 1"))
                      :: [("./u.py", ("x = 2", "z = 2"))]) w
  = (Raise e, w).
Proof.
  intros e E w.
  assert (Hne : "x = 1" ≠ "z = 1") by discriminate.
  assert (Hbefore : apply_changes E [] w = (Ok tt, w)) by reflexivity.
  assert (Hwrite : write_file_atomic E "./t.py" "z = 1" w = (Raise e, w))
    by reflexivity.
  split_and!; [exact Hne | exact Hbefore | exact Hwrite |].
  exact (apply_changes_halts_at_first_failure E []
           [("./u.py", ("x = 2", "z = 2"))] "./t.py" "x = 1" "z = 1"
           w w w e Hne Hbefore Hwrite).
Defined.

Lemma not_changed_in_cons (kv : string * (string * string))
    (changes : dict (string * string)) (p : string) :
  ¬ changed_in (kv :: changes) p → ¬ changed_in changes p.
Proof.
  intros Hnot (o & m & Hin & Hne). apply Hnot. exists o, m.
  split; [by right | done].
Qed.

(** X23. When no write meets an error and a name for the temporary file is
    free beside every target, the writing loop completes: afterwards every
    path whose record has two different texts holds the modified text, and
    every other file holds what it held. *)
Theorem apply_changes_writes_every_changed_file (E : Env) (name : string)
    (changes : dict (string * string)) (w : world) :
  let tmp_for := λ p,
    os_path_join (if decide (os_path_dirname p = "") then "."
                  else os_path_dirname p) ("tmp" +:+ name) in
  name ∈ tmp_names E →
  NoDup (map fst changes) →
  (∀ p, p ∈ map fst changes →
        write_fault E p = NoFault ∧ files w !! tmp_for p = None ∧
        ∀ p', p' ∈ map fst changes → tmp_for p ≠ p') →
  ∃ w',
    apply_changes E changes w = (Ok tt, w') ∧
    (∀ p original modified,
       (p, (original, modified)) ∈ changes → original ≠ modified →
       files w' !! p = Some modified) ∧
    (∀ p, ¬ changed_in changes p → files w' !! p = files w !! p).
Proof.
  intros tmp_for Hname. unfold apply_changes. revert w.
  induction changes as [| [p0 [o m]] changes IH]; intros w Hnodup Hall.
  { exists w. split_and!; [done | | done].
    intros p o m Hin. by apply elem_of_nil in Hin. }
  simpl in Hnodup. apply NoDup_cons in Hnodup as [Hfresh Hnodup].
  rewrite for_each_cons. unfold bind at 1.
  destruct (decide (o ≠ m)) as [Hne | Heq].
  - destruct (Hall p0) as (Hfault & Hfree & Hdistinct); [by left |].
    destruct (write_file_atomic_succeeds E p0 m w Hfault) as [tmp_path Hrun].
    { exists name. by split. }
    unfold bind at 1. rewrite Hrun. cbv beta iota.
    unfold print, emit. cbv beta iota.
    match goal with
    | |- context [for_each changes _ ?w0] => remember w0 as w1 eqn:Hw1
    end.
    assert (Hfiles1 : files w1 = <[p0 := m]> (files w)) by (by subst w1).
    clear Hw1.
    destruct (IH w1 Hnodup) as (w' & Hloop & Hchanged & Hother).
    { intros p Hp. destruct (Hall p) as (Hf & Hfr & Hd); [by right |].
      split_and!; [done | | intros p' Hp'; apply Hd; by right].
      rewrite Hfiles1, lookup_insert_ne; [done |].
      intros Heq. apply (Hd p0); [by left | done]. }
    exists w'. split_and!; [done | |].
    + intros p original modified Hin Hne'.
      apply elem_of_cons in Hin as [[= -> -> ->] | Hin].
      * rewrite Hother, Hfiles1; [by rewrite lookup_insert_eq |].
        intros (o' & m' & Hin & _). apply Hfresh.
        apply list_elem_of_In, in_map_iff. exists (p0, (o', m')).
        split; [done | by apply list_elem_of_In].
      * by eapply Hchanged.
    + intros p Hnot. rewrite Hother by (by eapply not_changed_in_cons).
      rewrite Hfiles1, lookup_insert_ne; [done |].
      intros <-. apply Hnot. exists o, m. split; [by left | done].
  - unfold ret.
    destruct (IH w Hnodup) as (w' & Hloop & Hchanged & Hother).
    { intros p Hp. destruct (Hall p) as (Hf & Hfr & Hd); [by right |].
      split_and!; [done | done | intros p' Hp'; apply Hd; by right]. }
    exists w'. split_and!; [done | |].
    + intros p original modified Hin Hne'.
      apply elem_of_cons in Hin as [[= -> -> ->] | Hin]; [done |].
      by eapply Hchanged.
    + intros p Hnot. apply Hother. by eapply not_changed_in_cons.
Qed.

Lemma apply_changes_writes_every_changed_file_witness :
  let E := Fixture.env ["t.py"; "u.py"] true in
  let changes := [("./t.py", ("x = 1", "z = 1"));
                  ("./u.py", ("y = 2", "y = 2"))] in
  let w := Fixture.disk [("./t.py", "x = 1"); ("./u.py", "y = 2")] in
  let tmp_for := λ p,
    os_path_join (if decide (os_path_dirname p = "") then "."
                  else os_path_dirname p) ("tmp" +:+ "qz4m81ab") in
  "qz4m81ab" ∈ tmp_names E ∧
  NoDup (map fst changes) ∧
  (∀ p, p ∈ map fst changes →
        write_fault E p = NoFault ∧ files w !! tmp_for p = None ∧
        ∀ p', p' ∈ map fst changes → tmp_for p ≠ p') ∧
  ∃ w',
    apply_changes E changes w = (Ok tt, w') ∧
    (∀ p original modified,
       (p, (original, modified)) ∈ changes → original ≠ modified →
       files w' !! p = Some modified) ∧
    (∀ p, ¬ changed_in changes p → files w' !! p = files w !! p).
Proof.
  intros E changes w tmp_for.
  assert (Hname : "qz4m81ab" ∈ tmp_names E) by (by left).
  assert (Hnodup : NoDup (map fst changes)).
  { simpl. repeat constructor.
    - intros Hin. apply list_elem_of_singleton in Hin. discriminate Hin.
    - apply not_elem_of_nil. }
  assert (Hall : ∀ p, p ∈ map fst changes →
            write_fault E p = NoFault ∧ files w !! tmp_for p = None ∧
            ∀ p', p' ∈ map fst changes → tmp_for p ≠ p').
  { assert (Hkeys : ∀ p, p ∈ map fst changes → p = "./t.py" ∨ p = "./u.py").
    { intros p Hp. simpl in Hp.
      apply elem_of_cons in Hp as [-> | Hp]; [by left |].
      apply list_elem_of_singleton in Hp. by right. }
    intros p Hp. split; [reflexivity |].
    destruct (Hkeys p Hp) as [-> | ->];
      (split; [vm_compute; reflexivity |]);
      intros p' Hp'; destruct (Hkeys p' Hp') as [-> | ->];
      vm_compute; discriminate. }
  split_and!; [exact Hname | exact Hnodup | exact Hall |].
  exact (apply_changes_writes_every_changed_file E "qz4m81ab" changes w
           Hname Hnodup Hall).
Defined.
